(** * Landmark predictor of batch-face: preprocessing, reprojection, batching

    Shallow embedding of [batch_face/fast_alignment/predictor.py].

    Numeric conventions.  Python integers are [Z]; a torch [int] tensor
    holds 32-bit integers, whose subtraction wraps ([wrap32]); the float32
    tensor through which [prepare_feed] builds its box rounds to 24
    significant bits ([float32]).  Python floats and the values of the
    landmark and image tensors are exact rationals [Q].  The constant [1.2] is the rational 6/5: for an integer [m]
    of magnitude below 2^50 the double product [m * 1.2] truncates to the
    same integer as [6 m / 5].  Array shapes are [N].  An [uint8] pixel is a
    [Byte.byte].  Exceptions are values of [exn] carried by the [result]
    monad.

    OpenCV, the data loader and the network are not part of the file: the
    first two are modelled by what their documentation fixes (shapes, the
    assertions that raise), the interpolation of [cv2.resize] and the
    network are parameters. *)

From Stdlib Require Import ZArith QArith Qround Lia Lqa.
From Stdlib Require Import Strings.String Strings.Byte.
From stdpp Require Import gmap list.

Local Open Scope Z_scope.

(** ** Exceptions *)

Inductive exn : Type :=
| CvError              (* cv2.error: an OpenCV assertion failed *)
| NotADirectoryError   (* raised by the source itself *)
| ValueError
| RuntimeError
| AssertionError
| IndexError
| TypeError.

Inductive result (A : Type) : Type :=
| Ok (a : A)
| Raise (e : exn).
Arguments Ok {A} a.
Arguments Raise {A} e.

#[global] Instance result_ret : MRet result := fun A a => Ok a.
#[global] Instance result_bind : MBind result := fun A B k m =>
  match m with
  | Ok a => k a
  | Raise e => Raise e
  end.

(** A list comprehension [[f(x) for x in xs]] is [mapM f xs]: evaluated left
    to right, the first exception wins. *)

(** ** Python and torch numerics *)

Definition Qltb (a b : Q) : bool :=
  Qnum a * Zpos (Qden b) <? Qnum b * Zpos (Qden a).

(** [max(a, b)] keeps [a] unless [b] is strictly larger; [min(a, b)] keeps
    [a] unless [b] is strictly smaller. *)
Definition py_max (a b : Q) : Q := if Qltb a b then b else a.
Definition py_min (a b : Q) : Q := if Qltb b a then b else a.

(** [int(x)] on a float, and [Tensor.int()]: truncation toward zero. *)
Definition py_int (q : Q) : Z := Z.quot (Qnum q) (Zpos (Qden q)).

(** [x // 2] on a float: the floor of the quotient, still a float. *)
Definition float_floordiv2 (q : Q) : Q := inject_Z (Qfloor (q / 2)).

(** Two's complement wrap-around of a 32-bit and of an 8-bit integer. *)
Definition wrap32 (z : Z) : Z := (z + 2 ^ 31) mod 2 ^ 32 - 2 ^ 31.
Definition wrap8 (z : Z) : Z := (z + 2 ^ 7) mod 2 ^ 8 - 2 ^ 7.

(** The binary exponent of a rational that is not zero: the floor of the
    logarithm of its magnitude. *)
Definition Qlog2 (q : Q) : Z :=
  let a := Z.abs (Qnum q) in
  let d := Zpos (Qden q) in
  let e0 := Z.log2 a - Z.log2 d in
  if (if 0 <=? e0 then d * 2 ^ e0 <=? a else d <=? a * 2 ^ (- e0))
  then e0 else e0 - 1.

(** Rounding to the nearest integer, ties to the even one. *)
Definition rne (x : Q) : Z :=
  let fl := Qfloor x in
  let r := (x - inject_Z fl)%Q in
  if Qltb r (1 # 2) then fl
  else if Qltb (1 # 2) r then fl + 1
  else if Z.even fl then fl else fl + 1.

(** The value a float32 tensor stores for a number: the nearest multiple of
    [2 ^ (e - 23)], [e] being the binary exponent of the number (values
    outside the exponent range of the format are not modelled). *)
Definition float32 (q : Q) : Q :=
  if Qnum q =? 0 then q
  else
    let k := Qlog2 q - 23 in
    if 0 <=? k then inject_Z (rne (q / inject_Z (2 ^ k)) * 2 ^ k)
    else (rne (q * inject_Z (2 ^ (- k))) # Z.to_pos (2 ^ (- k))).

(** ** Landmark tensors and reprojection *)

(** A landmark tensor of shape (K, 2): K rows [(x, y)]. *)
Definition landmarks : Type := list (Q * Q).

(** The [bbox] entry of a feed: an [int] (32-bit) tensor of four values. *)
Definition bbox : Type := (Z * Z * Z * Z)%type.

(** [t[:, 0] *= w], [t[:, 0] += a], and the same on column 1; the integer
    scalar is promoted to the tensor's float type. *)
Definition col0_imul (w : Z) (t : landmarks) : landmarks :=
  map (fun p => (fst p * inject_Z w, snd p)%Q) t.
Definition col0_iadd (a : Z) (t : landmarks) : landmarks :=
  map (fun p => (fst p + inject_Z a, snd p)%Q) t.
Definition col1_imul (h : Z) (t : landmarks) : landmarks :=
  map (fun p => (fst p, snd p * inject_Z h)%Q) t.
Definition col1_iadd (a : Z) (t : landmarks) : landmarks :=
  map (fun p => (fst p, snd p + inject_Z a)%Q) t.

(** [reproject] at the level of values: the tensor it returns, as a function
    of the box and of the contents of its argument. *)
Definition reproject (b : bbox) (landmark : landmarks) : landmarks :=
  let landmark_ := landmark in
  let '(x1, y1, x2, y2) := b in
  let w := wrap32 (x2 - x1) in
  let h := wrap32 (y2 - y1) in
  let landmark_ := col0_imul w landmark_ in
  let landmark_ := col0_iadd x1 landmark_ in
  let landmark_ := col1_imul h landmark_ in
  let landmark_ := col1_iadd y1 landmark_ in
  landmark_.

(** [reproject] on a store of tensors: [clone] allocates, the four updates
    write through the reference they are given. *)
Module Store.

Definition loc : Type := positive.

Definition clone (l : loc) (h : gmap loc landmarks)
  : option (loc * gmap loc landmarks) :=
  match h !! l with
  | Some t => let l' := fresh (dom h) in Some (l', <[l' := t]> h)
  | None => None
  end.

Definition update (f : landmarks -> landmarks) (l : loc)
    (h : gmap loc landmarks) : gmap loc landmarks :=
  alter f l h.

Definition reproject (b : bbox) (landmark : loc) (h : gmap loc landmarks)
  : option (loc * gmap loc landmarks) :=
  match clone landmark h with
  | Some (landmark_, h) =>
      let '(x1, y1, x2, y2) := b in
      let w := wrap32 (x2 - x1) in
      let ht := wrap32 (y2 - y1) in
      let h := update (col0_imul w) landmark_ h in
      let h := update (col0_iadd x1) landmark_ h in
      let h := update (col1_imul ht) landmark_ h in
      let h := update (col1_iadd y1) landmark_ h in
      Some (landmark_, h)
  | None => None
  end.

End Store.

(** ** Device selection *)

Inductive device : Type :=
| cpu
| cuda (ordinal : Z).

(** [torch.device("cuda:<index>")]: the index is parsed as a 32-bit integer
    (a longer one is refused) and kept in a signed byte, so that
    [cuda:1000] is the device of index -24. *)
Definition torch_device_cuda (index : Z) : result device :=
  if index <? 2 ^ 31 then Ok (cuda (wrap8 index)) else Raise RuntimeError.

Definition get_device (gpu_id : Z) : result device :=
  if gpu_id >? -1 then torch_device_cuda gpu_id else Ok cpu.

(** ** Images and arrays *)

(** An image as the predictor receives it: a [height x width x 3] array of
    [uint8] pixels ([pixel img row col channel]). *)
Record image : Type := mk_image {
  height : N;
  width : N;
  pixel : Z -> Z -> Z -> byte
}.

(** A three-dimensional float array or tensor. *)
Record tensor : Type := mk_tensor {
  shape : N * N * N;
  value : Z -> Z -> Z -> Q
}.

(** One bound of a basic slice [a:b] over an axis of length [n]: a negative
    index counts from the end, then the index is clamped to [0, n]. *)
Definition slice_index (n : N) (i : Z) : Z :=
  if i <? 0 then Z.max 0 (i + Z.of_N n) else Z.min i (Z.of_N n).

Definition slice_len (n : N) (a b : Z) : N :=
  Z.to_N (slice_index n b - slice_index n a).

(** [img[y1:y2, x1:x2]] *)
Definition crop (img : image) (y1 y2 x1 x2 : Z) : image :=
  {| height := slice_len (height img) y1 y2;
     width := slice_len (width img) x1 x2;
     pixel := fun i j c =>
       pixel img (slice_index (height img) y1 + i)
                 (slice_index (width img) x1 + j) c |}.

(** [cv2.copyMakeBorder(src, top, bottom, left, right, cv2.BORDER_CONSTANT,
    value)]: OpenCV asserts that the four margins are not negative.  The
    properties below apply it to a source that is not empty, or do not
    depend on what it returns for an empty one. *)
Definition copyMakeBorder (src : image) (top bottom left right : Z)
    (fill : byte) : result image :=
  if (top <? 0) || (bottom <? 0) || (left <? 0) || (right <? 0)
  then Raise CvError
  else Ok {| height := height src + Z.to_N top + Z.to_N bottom;
             width := width src + Z.to_N left + Z.to_N right;
             pixel := fun i j c =>
               if (top <=? i) && (i <? top + Z.of_N (height src))
                  && (left <=? j) && (j <? left + Z.of_N (width src))
               then pixel src (i - top) (j - left) c
               else fill |}.

(** [cv2.resize(src, (out_size, out_size))]: OpenCV asserts that the source
    is not empty; the interpolation itself, [interp], belongs to OpenCV and
    is a parameter of the model. *)
Definition resize (interp : image -> N -> Z -> Z -> Z -> byte)
    (src : image) (out_size : N) : result image :=
  if (height src =? 0)%N || (width src =? 0)%N
  then Raise CvError
  else Ok {| height := out_size; width := out_size;
             pixel := interp src out_size |}.

(** ** Preprocessing *)

(** A face box as the caller passes it: [face[0..3]], any numbers. *)
Definition face_box : Type := (Q * Q * Q * Q)%type.

Definition int_box (x1 y1 x2 y2 : Z) : face_box :=
  (inject_Z x1, inject_Z y1, inject_Z x2, inject_Z y2).

Definition mean : list Q := [485 # 1000; 456 # 1000; 406 # 1000]%Q.
Definition std : list Q := [229 # 1000; 224 # 1000; 225 # 1000]%Q.

Definition out_size_of (backbone : string) : N :=
  if String.eqb backbone "MobileNet" then 224%N else 112%N.

(** Lines 40 to 64 of [prepare_feed]: everything computed from the box and
    the image shape before the pixels are touched. *)
Record crop_plan : Type := mk_plan {
  size : Z;
  region : Q * Q * Q * Q;   (* the square x1, y1, x2, y2 before clipping *)
  dx : Q; dy : Q; edx : Q; edy : Q;
  new_bbox : bbox
}.

Definition crop_geometry (img_height img_width : N) (face : face_box)
  : crop_plan :=
  let '(x1, y1, x2, y2) := face in
  let w := (x2 - x1 + 1)%Q in
  let h := (y2 - y1 + 1)%Q in
  let size := py_int (py_min w h * (6 # 5)) in
  let cx := (x1 + float_floordiv2 w)%Q in
  let cy := (y1 + float_floordiv2 h)%Q in
  let x1 := (cx - inject_Z (size / 2))%Q in
  let x2 := (x1 + inject_Z size)%Q in
  let y1 := (cy - inject_Z (size / 2))%Q in
  let y2 := (y1 + inject_Z size)%Q in
  let sq := (x1, y1, x2, y2) in
  let dx := py_max 0 (- x1) in
  let dy := py_max 0 (- y1) in
  let x1 := py_max 0 x1 in
  let y1 := py_max 0 y1 in
  let edx := py_max 0 (x2 - inject_Z (Z.of_N img_width)) in
  let edy := py_max 0 (y2 - inject_Z (Z.of_N img_height)) in
  let x2 := py_min (inject_Z (Z.of_N img_width)) x2 in
  let y2 := py_min (inject_Z (Z.of_N img_height)) y2 in
  {| size := size; region := sq;
     dx := dx; dy := dy; edx := edx; edy := edy;
     new_bbox := (py_int (float32 x1), py_int (float32 y1),
                  py_int (float32 x2), py_int (float32 y2)) |}.

(** Lines 66 to 70: the crop handed to [cv2.resize]. *)
Definition padded_crop (img : image) (g : crop_plan) : result image :=
  let '(x1, y1, x2, y2) := new_bbox g in
  let cropped := crop img y1 y2 x1 x2 in
  if Qltb 0 (dx g) || Qltb 0 (dy g) || Qltb 0 (edx g) || Qltb 0 (edy g)
  then copyMakeBorder cropped (py_int (dy g)) (py_int (edy g))
                      (py_int (dx g)) (py_int (edx g)) x00
  else Ok cropped.

(** A feed: the dictionary [dict(data=..., bbox=...)]. *)
Record feed : Type := mk_feed {
  data : tensor;
  feed_bbox : bbox
}.

Definition byte_to_Q (b : byte) : Q := inject_Z (Z.of_N (Byte.to_N b)).

(** Lines 75 to 80: scaling to the unit interval, the statistics of the
    MobileNet backbone (broadcast along the channel axis), and the move of
    the channel axis to the front. *)
Definition normalize (backbone : string) (cropped_face : image) : tensor :=
  let test_face := pixel cropped_face in
  let test_face := fun i j c => (byte_to_Q (test_face i j c) / 255)%Q in
  let test_face :=
    if String.eqb backbone "MobileNet"
    then fun i j c =>
           ((test_face i j c - nth (Z.to_nat c) mean 0)
            / nth (Z.to_nat c) std 0)%Q
    else test_face in
  {| shape := (3%N, height cropped_face, width cropped_face);
     value := fun c i j => test_face i j c |}.

Definition prepare_feed (interp : image -> N -> Z -> Z -> Z -> byte)
    (img : image) (face : face_box) (backbone : string) : result feed :=
  let out_size := out_size_of backbone in
  let g := crop_geometry (height img) (width img) face in
  cropped ← padded_crop img g;
  cropped_face ← resize interp cropped out_size;
  if (Z.of_N (height cropped_face) <=? 0) || (Z.of_N (width cropped_face) <=? 0)
  then Raise NotADirectoryError
  else Ok {| data := normalize backbone cropped_face;
             feed_bbox := new_bbox g |}.

(** ** Batched inference *)

(** [t.reshape(-1, 2)] on a tensor with the given elements in row-major
    order: torch refuses an odd number of elements. *)
Fixpoint reshape_pairs (flat : list Q) : result landmarks :=
  match flat with
  | [] => Ok []
  | [_] => Raise RuntimeError
  | x :: y :: rest => ps ← reshape_pairs rest; Ok ((x, y) :: ps)
  end.

(** The batches of [DataLoader(dataset, batch_size=k, shuffle=False)]:
    consecutive runs of [k] samples, the last one possibly shorter. *)
Fixpoint chunks {A : Type} (fuel k : nat) (l : list A) : list (list A) :=
  match fuel with
  | O => []
  | S fuel' =>
      match l with
      | [] => []
      | _ => take k l :: chunks fuel' k (drop k l)
      end
  end.

Definition same_shape (t u : tensor) : bool :=
  let '(a, b, c) := shape t in
  let '(a', b', c') := shape u in
  ((a =? a') && (b =? b') && (c =? c'))%N.

(** The default collate function on a batch of feeds: the [data] tensors
    are stacked (torch refuses tensors of unequal shapes), and so are the
    boxes. *)
Definition collate (batch : list feed) : result (list tensor * list bbox) :=
  match batch with
  | [] => Ok ([], [])
  | f :: _ =>
      if forallb (fun f' => same_shape (data f) (data f')) batch
      then Ok (map data batch, map feed_bbox batch)
      else Raise RuntimeError
  end.

(** The loader checks its batch size when it is built; a batch is collated
    when the loop reaches it. *)
Definition DataLoader (dataset : list feed) (batch_size : Z)
  : result (list (list feed)) :=
  if batch_size <=? 0 then Raise ValueError
  else Ok (chunks (length dataset) (Z.to_nat batch_size) dataset).

(** The network on a batch: one flat output vector per input tensor. *)
Definition network : Type := list tensor -> list (list Q).

Inductive feeds_arg : Type :=
| one_feed (f : feed)            (* [not isinstance(feeds, list)] *)
| feed_list (fs : list feed).

(** The inner loop of [batch_predict2] over [zip(landmarks, feed["bbox"])],
    appending to [results]. *)
Fixpoint reproject_all (rows : list (list Q * bbox)) (results : list landmarks)
  : result (list landmarks) :=
  match rows with
  | [] => Ok results
  | (landmark, b) :: rows' =>
      landmark ← reshape_pairs landmark;
      let landmark := reproject b landmark in
      reproject_all rows' (results ++ [landmark])
  end.

(** The outer loop of [batch_predict2] over the batches of the loader. *)
Fixpoint predict_batches (model : network) (loader : list (list feed))
    (results : list landmarks) : result (list landmarks) :=
  match loader with
  | [] => Ok results
  | batch :: loader' =>
      fd ← collate batch;
      let landmarks := model (fst fd) in
      results ← reproject_all (zip landmarks (snd fd)) results;
      predict_batches model loader' results
  end.

Definition batch_predict2 (model : network) (feeds : feeds_arg) (dev : device)
    (batch_size : option Z) : result (list landmarks) :=
  let feeds := match feeds with one_feed f => [f] | feed_list fs => fs end in
  let batch_size :=
    match batch_size with
    | None => Z.of_nat (length feeds)
    | Some k => k
    end in
  loader ← DataLoader feeds (Z.of_nat (length feeds));
  predict_batches model loader [].

(** [l[a:b]] on a list, for indices that are not negative. *)
Definition list_slice {A : Type} (l : list A) (a b : nat) : list A :=
  take (b - a) (drop a l).

Definition split_feeds {A B : Type} (all_feeds : list A)
    (all_faces : list (list B)) : list (list A) :=
  let counts := map length all_faces in
  let '(sum_now, ends) :=
    fold_left
      (fun (st : nat * list nat) i =>
         let '(sum_now, ends) := st in
         let sum_now := (sum_now + nth i counts 0)%nat in
         let end_ := sum_now in
         (sum_now, ends ++ [end_]))
      (seq 0 (length counts)) (0%nat, [0%nat]) in
  map (fun i => list_slice all_feeds (nth (i - 1) ends 0%nat) (nth i ends 0%nat))
      (seq 1 (length ends - 1)).

(** ** The predictor object *)

Record LandmarkPredictor : Type := mk_predictor {
  self_device : device;
  self_backbone : string;
  self_model : network
}.

(** [__init__(self, gpu_id=0, backbone="MobileNet", file=None)]: an absent
    argument takes its default.  [load] stands for building the network of
    a backbone, loading its weights and moving it to the device, each of
    which can raise. *)
Definition init (load : string -> device -> result network)
    (gpu_id : option Z) (backbone : option string)
  : result LandmarkPredictor :=
  let gpu_id := default 0 gpu_id in
  let backbone := default "MobileNet"%string backbone in
  dev ← get_device gpu_id;
  if String.eqb backbone "MobileNet" || String.eqb backbone "PFLD"
  then
    model ← load backbone dev;
    Ok {| self_device := dev; self_backbone := backbone; self_model := model |}
  else Raise NotADirectoryError.

(** What a call returns: one landmark set, a list of them, or one list per
    image. *)
Inductive prediction : Type :=
| one_result (r : landmarks)
| result_list (rs : list landmarks)
| result_groups (rss : list (list landmarks)).

(** The values a call can receive: an image with a box (a tuple of
    numbers) or with a list of boxes, or a list of images with as many lists
    of boxes.  Which path [__call__] takes for a single image is decided at
    run time by [is_box], a helper of [utils] that is a parameter here. *)
Inductive boxes_arg : Type :=
| a_box (box : face_box)
| some_boxes (boxes : list face_box).

Inductive call_input : Type :=
| image_box (img : image) (box : face_box)
| image_boxes (img : image) (boxes : list face_box)
| images_boxes (imgs : list image) (all_boxes : list (list face_box)).

Section Methods.

Variable is_box : boxes_arg -> bool.
Variable interp : image -> N -> Z -> Z -> Z -> byte.
Variable self : LandmarkPredictor.

Definition self_prepare_feed (img : image) (face : face_box) : result feed :=
  prepare_feed interp img face (self_backbone self).

Definition _inner_predict (feeds : feeds_arg) : result prediction :=
  results ← batch_predict2 (self_model self) feeds (self_device self) None;
  match feeds with
  | one_feed _ =>
      match results with
      | r :: _ => Ok (one_result r)
      | [] => Raise IndexError
      end
  | feed_list _ => Ok (result_list results)
  end.

Definition self_batch_predict (all_boxes : list (list face_box))
    (all_images : list image) : result prediction :=
  all_feeds ←
    mapM (fun fi : list face_box * image =>
            mapM (fun box => self_prepare_feed (snd fi) box) (fst fi))
         (zip all_boxes all_images);
  let all_feeds := concat all_feeds in
  all_results ← _inner_predict (feed_list all_feeds);
  match all_results with
  | result_list rs => Ok (result_groups (split_feeds rs all_boxes))
  | other => Ok other
  end.

(** [__call__] with [from_fd=False].  A box that [is_box] refuses is
    iterated as a list of boxes, and [prepare_feed] fails on its first
    number ([face[0]]); a list that [is_box] accepts is handed to
    [prepare_feed] as one box, which fails on [face[3]] when the list is
    shorter than four and on the subtraction of two tuples otherwise. *)
Definition call (input : call_input) : result prediction :=
  match input with
  | image_box img box =>
      if is_box (a_box box)
      then f ← self_prepare_feed img box;
           _inner_predict (one_feed f)
      else Raise TypeError
  | image_boxes img boxes =>
      if is_box (some_boxes boxes)
      then if (length boxes <? 4)%nat then Raise IndexError else Raise TypeError
      else feeds ← mapM (fun box => self_prepare_feed img box) boxes;
           _inner_predict (feed_list feeds)
  | images_boxes imgs all_boxes =>
      if negb (length all_boxes =? length imgs)%nat then Raise AssertionError
      else match imgs with
           | [] => Raise IndexError
           | _ => self_batch_predict all_boxes imgs
           end
  end.

End Methods.

(** ** The module-level predictors *)

(** [single_predict]: the network sees a batch of one ([unsqueeze(0)]), and
    [reshape(-1, 2)] flattens whatever it returns, row after row. *)
Definition single_predict (model : network) (f : feed) (dev : device)
  : result landmarks :=
  let landmark := concat (model [data f]) in
  landmark ← reshape_pairs landmark;
  let landmark := reproject (feed_bbox f) landmark in
  Ok landmark.

(** [torch.cat(data, 0)] on tensors that each carry a leading axis of
    length one: torch refuses an empty list ([ValueError]) and tensors
    whose other axes differ ([RuntimeError]). *)
Definition torch_cat (ts : list tensor) : result (list tensor) :=
  match ts with
  | [] => Raise ValueError
  | t :: _ =>
      if forallb (fun t' => same_shape t t') ts then Ok ts
      else Raise RuntimeError
  end.

(** The loop of [batch_predict] over [zip(landmarks, feeds)]. *)
Fixpoint reproject_feeds (rows : list (list Q * feed)) (results : list landmarks)
  : result (list landmarks) :=
  match rows with
  | [] => Ok results
  | (landmark, f) :: rows' =>
      landmark ← reshape_pairs landmark;
      let landmark := reproject (feed_bbox f) landmark in
      reproject_feeds rows' (results ++ [landmark])
  end.

Definition batch_predict (model : network) (feeds : feeds_arg) (dev : device)
  : result (list landmarks) :=
  let feeds := match feeds with one_feed f => [f] | feed_list fs => fs end in
  let data := map data feeds in
  data ← torch_cat data;
  let results := [] in
  let landmarks := model data in
  reproject_feeds (zip landmarks feeds) results.

(** ** Notions used in the statements *)

(** The slice boundary after the first [i] groups of [split_feeds]: the sum
    of the first [i] counts. *)
Definition boundary (counts : list nat) (i : nat) : nat :=
  sum_list (take i counts).

(** What the predictor computes for one feed when the network [net] is
    applied to that feed alone. *)
Definition infer (net : tensor -> list Q) (f : feed) : result landmarks :=
  landmark ← reshape_pairs (net (data f));
  Ok (reproject (feed_bbox f) landmark).

(** The list behind either form of the [feeds] argument. *)
Definition feeds_of (feeds : feeds_arg) : list feed :=
  match feeds with one_feed f => [f] | feed_list fs => fs end.

(** Sample inputs for the closed instances below: nearest-neighbour
    interpolation in the place of OpenCV's, and an image of one colour. *)
Definition nearest (src : image) (out_size : N) (i j c : Z) : byte :=
  pixel src (i * Z.of_N (height src) / Z.of_N out_size)
            (j * Z.of_N (width src) / Z.of_N out_size) c.

Definition flat_image (h w : N) (v : byte) : image :=
  {| height := h; width := w; pixel := fun _ _ _ => v |}.

(** A sample predictor: its network returns the corners (0, 0) and (1, 1)
    for every element of the batch. *)
Definition corner_net (t : tensor) : list Q := [0; 0; 1; 1]%Q.

Definition corner_predictor : LandmarkPredictor :=
  {| self_device := cpu; self_backbone := "PFLD"; self_model := map corner_net |}.

(** A sample [is_box]: a box is a tuple whose second corner lies beyond the
    first on both axes; a list is never a box. *)
Definition sample_is_box (b : boxes_arg) : bool :=
  match b with
  | a_box (x1, y1, x2, y2) => Qltb x1 x2 && Qltb y1 y2
  | some_boxes _ => false
  end.

(** * Properties *)

(** ** Rationals that are integers *)

Lemma Qltb_lt (a b : Q) : Qltb a b = true <-> (a < b)%Q.
Proof. unfold Qltb, Qlt. apply Z.ltb_lt. Qed.

Lemma Qltb_ge (a b : Q) : Qltb a b = false <-> (b <= a)%Q.
Proof. unfold Qltb, Qle. rewrite Z.ltb_ge. reflexivity. Qed.

Lemma Qltb_inject (a b : Z) : Qltb (inject_Z a) (inject_Z b) = (a <? b).
Proof. unfold Qltb. simpl. rewrite !Z.mul_1_r. reflexivity. Qed.

Lemma py_int_inject (z : Z) : py_int (inject_Z z) = z.
Proof. unfold py_int. simpl. apply Z.quot_1_r. Qed.

(** Truncation is the floor on the non-negative side and the ceiling on the
    negative side. *)
Lemma py_int_floor (q : Q) : (0 <= q)%Q -> py_int q = Qfloor q.
Proof.
  destruct q as [n d]. unfold py_int, Qle, Qfloor. simpl. intros H.
  apply Z.quot_div_nonneg; lia.
Qed.

Lemma py_int_ceiling (q : Q) : (q <= 0)%Q -> py_int q = Qceiling q.
Proof.
  destruct q as [n d]. unfold py_int, Qle, Qceiling, Qfloor. simpl. intros H.
  rewrite <- (Z.opp_involutive n) at 1.
  rewrite Z.quot_opp_l by lia.
  rewrite Z.quot_div_nonneg by lia. reflexivity.
Qed.

Lemma py_int_proper : Proper (Qeq ==> eq) py_int.
Proof.
  intros a b Hab. destruct (Qlt_le_dec a 0) as [Hneg | Hpos].
  - rewrite !py_int_ceiling.
    + rewrite Hab. reflexivity.
    + rewrite <- Hab. apply Qlt_le_weak. assumption.
    + apply Qlt_le_weak. assumption.
  - rewrite !py_int_floor.
    + rewrite Hab. reflexivity.
    + rewrite <- Hab. assumption.
    + assumption.
Qed.

Lemma py_max_inject (a b : Z) :
  py_max (inject_Z a) (inject_Z b) = inject_Z (Z.max a b).
Proof.
  unfold py_max. rewrite Qltb_inject.
  destruct (Z.ltb_spec a b); f_equal; lia.
Qed.

Lemma py_min_inject (a b : Z) :
  py_min (inject_Z a) (inject_Z b) = inject_Z (Z.min a b).
Proof.
  unfold py_min. rewrite Qltb_inject.
  destruct (Z.ltb_spec b a); f_equal; lia.
Qed.

Lemma float_floordiv2_inject (z : Z) :
  float_floordiv2 (inject_Z z) = inject_Z (z / 2).
Proof.
  unfold float_floordiv2. f_equal.
  unfold Qfloor, Qdiv, Qmult, Qinv, inject_Z. simpl.
  rewrite Z.mul_1_r. reflexivity.
Qed.

(** ** Reprojection *)

Lemma Qaffine_zero (w a : Z) : (0 * inject_Z w + inject_Z a)%Q = inject_Z a.
Proof. unfold Qplus, Qmult, inject_Z. simpl. f_equal. lia. Qed.

Lemma Qaffine_one (a b : Z) :
  (1 * inject_Z (b - a) + inject_Z a)%Q = inject_Z b.
Proof.
  unfold Qplus, Qmult, inject_Z. cbn [Qnum Qden]. f_equal.
  rewrite Z.mul_1_l, Pos.mul_1_r. lia.
Qed.

Lemma wrap32_small (z : Z) : - 2 ^ 31 <= z < 2 ^ 31 -> wrap32 z = z.
Proof.
  intros H. unfold wrap32. rewrite Z.mod_small by lia. lia.
Qed.

Lemma reproject_map (x1 y1 x2 y2 : Z) (landmark : landmarks) :
  reproject (x1, y1, x2, y2) landmark =
  map (fun p => (fst p * inject_Z (wrap32 (x2 - x1)) + inject_Z x1,
                 snd p * inject_Z (wrap32 (y2 - y1)) + inject_Z y1)%Q) landmark.
Proof.
  unfold reproject, col0_imul, col0_iadd, col1_imul, col1_iadd.
  rewrite !map_map. reflexivity.
Qed.




(** The store after a successful [clone]: the source cell and every other
    old cell are as before, the new cell is outside the old domain. *)
Lemma clone_spec (l : Store.loc) (h : gmap Store.loc landmarks) (t : landmarks) :
  h !! l = Some t ->
  exists l', Store.clone l h = Some (l', <[l' := t]> h) /\ l' ∉ dom h.
Proof.
  intros Hl. unfold Store.clone. rewrite Hl.
  exists (fresh (dom h)). split; [reflexivity | apply is_fresh].
Qed.

(** C7: [reproject] leaves its landmark argument alone.  On a store where
    the argument holds [t], the call returns a cell that was not allocated
    before (so it is not the argument), every cell that existed keeps its
    contents, the argument among them, and the new cell holds the
    reprojected values. *)
Theorem reproject_pure (b : bbox) (landmark : Store.loc)
    (h : gmap Store.loc landmarks) (t : landmarks) :
  h !! landmark = Some t ->
  exists (landmark_ : Store.loc) (h' : gmap Store.loc landmarks),
    Store.reproject b landmark h = Some (landmark_, h')
    /\ (landmark_ ∉ dom h)
    /\ landmark_ <> landmark
    /\ h' !! landmark = Some t
    /\ (forall k, k ∈ dom h -> h' !! k = h !! k)
    /\ h' !! landmark_ = Some (reproject b t).
Proof.
  intros Hl. destruct (clone_spec _ _ _ Hl) as (l' & Hc & Hfresh).
  assert (Hne : l' <> landmark).
  { intros ->. apply Hfresh. apply elem_of_dom. eauto. }
  destruct b as [[[x1 y1] x2] y2].
  unfold Store.reproject. rewrite Hc.
  eexists _, _. split; [reflexivity |].
  split; [assumption |]. split; [assumption |].
  unfold Store.update.
  assert (Hold : forall k, k ∈ dom h ->
    alter (col1_iadd y1) l' (alter (col1_imul (wrap32 (y2 - y1))) l'
      (alter (col0_iadd x1) l' (alter (col0_imul (wrap32 (x2 - x1))) l'
        (<[l' := t]> h)))) !! k = h !! k).
  { intros k Hk. assert (l' <> k) by (intros ->; contradiction).
    rewrite !lookup_alter_ne by assumption.
    rewrite lookup_insert_ne by assumption. reflexivity. }
  split.
  { rewrite Hold by (apply elem_of_dom; eauto). assumption. }
  split; [exact Hold |].
  rewrite !lookup_alter_eq, lookup_insert_eq. reflexivity.
Qed.

Lemma reproject_pure_witness :
  exists (landmark_ : Store.loc) (h' : gmap Store.loc landmarks),
    Store.reproject (10, 20, 110, 220) 1%positive
      {[ 1%positive := [(0, 0)%Q; (1, 1)%Q] ]} = Some (landmark_, h')
    /\ (landmark_ ∉ dom ({[ 1%positive := [(0, 0)%Q; (1, 1)%Q] ]}
                          : gmap Store.loc landmarks))
    /\ landmark_ <> 1%positive
    /\ h' !! 1%positive = Some [(0, 0)%Q; (1, 1)%Q]
    /\ (forall k, k ∈ dom ({[ 1%positive := [(0, 0)%Q; (1, 1)%Q] ]}
                            : gmap Store.loc landmarks) ->
          h' !! k = ({[ 1%positive := [(0, 0)%Q; (1, 1)%Q] ]}
                      : gmap Store.loc landmarks) !! k)
    /\ h' !! landmark_ = Some (reproject (10, 20, 110, 220) [(0, 0)%Q; (1, 1)%Q]).
Proof.
  apply (reproject_pure (10, 20, 110, 220) 1%positive
           {[ 1%positive := [(0, 0)%Q; (1, 1)%Q] ]} [(0, 0)%Q; (1, 1)%Q]).
  reflexivity.
Defined.

(** ** Splitting the flat result list *)

Section Split.

Context {A : Type}.

Lemma boundary_S (counts : list nat) (k : nat) :
  (k < length counts)%nat ->
  boundary counts (S k) = (boundary counts k + nth k counts 0)%nat.
Proof.
  intros Hk. unfold boundary.
  destruct (lookup_lt_is_Some_2 counts k Hk) as [c Hc].
  rewrite (take_S_r _ _ _ Hc), sum_list_with_app, (nth_lookup_Some _ _ _ _ Hc).
  simpl. lia.
Qed.

Lemma boundary_cons (c : nat) (cs : list nat) (i : nat) :
  boundary (c :: cs) (S i) = (c + boundary cs i)%nat.
Proof. reflexivity. Qed.

(** The loop that accumulates [ends]. *)
Lemma ends_loop (counts : list nat) (m k : nat) (ends : list nat) :
  (k + m = length counts)%nat ->
  fold_left
    (fun (st : nat * list nat) i =>
       let '(sum_now, ends) := st in
       let sum_now := (sum_now + nth i counts 0)%nat in
       let end_ := sum_now in
       (sum_now, ends ++ [end_]))
    (seq k m) (boundary counts k, ends)
  = (boundary counts (k + m), ends ++ map (boundary counts) (seq (S k) m)).
Proof.
  revert k ends. induction m as [| m IH]; intros k ends Hlen.
  - simpl. rewrite Nat.add_0_r, app_nil_r. reflexivity.
  - cbn [seq fold_left]. rewrite <- boundary_S by lia.
    rewrite IH by lia. cbn [map]. rewrite <- app_assoc. simpl.
    f_equal. f_equal. lia.
Qed.

Lemma split_feeds_slices {B : Type} (all_feeds : list A)
    (all_faces : list (list B)) :
  split_feeds all_feeds all_faces =
  map (fun i => list_slice all_feeds
                  (boundary (map length all_faces) (i - 1))
                  (boundary (map length all_faces) i))
      (seq 1 (length all_faces)).
Proof.
  unfold split_feeds.
  pose proof (ends_loop (map length all_faces)
                (length (map length all_faces)) 0 [0%nat] eq_refl) as Hloop.
  change (boundary (map length all_faces) 0) with 0%nat in Hloop.
  cbv zeta in Hloop.
  rewrite Hloop. clear Hloop.
  change ([0%nat] ++ map (boundary (map length all_faces))
                       (seq 1 (length (map length all_faces))))
    with (map (boundary (map length all_faces))
            (seq 0 (S (length (map length all_faces))))).
  rewrite !length_map, length_seq.
  replace (S (length all_faces) - 1)%nat with (length all_faces) by lia.
  apply map_ext_in. intros i Hi. apply in_seq in Hi.
  set (n := length all_faces) in *.
  set (bd := boundary (map length all_faces)).
  assert (Hnth : forall j, (j <= n)%nat ->
            nth j (map bd (seq 0 (S n))) 0%nat = bd j).
  { intros j Hj.
    rewrite (nth_indep _ 0%nat (bd 0%nat)) by (rewrite length_map, length_seq; lia).
    rewrite map_nth, seq_nth by lia. reflexivity. }
  rewrite !Hnth by lia. reflexivity.
Qed.

Lemma list_slice_shift (l : list A) (c a b : nat) :
  list_slice l (c + a) (c + b) = list_slice (drop c l) a b.
Proof.
  unfold list_slice. rewrite drop_drop. f_equal. lia.
Qed.

Lemma slices_cons (c : nat) (cs : list nat) (l : list A) (n : nat) :
  map (fun i => list_slice l (boundary (c :: cs) (i - 1)) (boundary (c :: cs) i))
      (seq 1 (S n))
  = take c l
    :: map (fun i => list_slice (drop c l) (boundary cs (i - 1)) (boundary cs i))
           (seq 1 n).
Proof.
  cbn [seq map]. f_equal.
  - unfold list_slice, boundary. simpl. rewrite Nat.add_0_r, Nat.sub_0_r.
    reflexivity.
  - rewrite <- seq_shift, map_map. apply map_ext_in. intros i Hi.
    apply in_seq in Hi. destruct i as [| i]; [lia |].
    cbn [Nat.sub]. rewrite Nat.sub_0_r.
    rewrite !boundary_cons. apply list_slice_shift.
Qed.

End Split.

Lemma split_feeds_cons {A B : Type} (all_feeds : list A) (faces : list B)
    (all_faces : list (list B)) :
  split_feeds all_feeds (faces :: all_faces) =
  take (length faces) all_feeds
    :: split_feeds (drop (length faces) all_feeds) all_faces.
Proof.
  rewrite !split_feeds_slices. cbn [map length]. apply slices_cons.
Qed.

(** C4: when the flat list has as many elements as there are boxes in all
    images together, [split_feeds] returns one group per image, the i-th
    group has as many elements as the i-th image has boxes, and the groups
    put end to end are the flat list again (so the order is kept).  Counts
    [2, 0, 3] on five elements give groups of lengths [2, 0, 3]. *)
Theorem split_feeds_partition {A B : Type} (all_feeds : list A)
    (all_faces : list (list B)) :
  length all_feeds = sum_list_with length all_faces ->
  length (split_feeds all_feeds all_faces) = length all_faces
  /\ map length (split_feeds all_feeds all_faces) = map length all_faces
  /\ concat (split_feeds all_feeds all_faces) = all_feeds.
Proof.
  revert all_feeds.
  induction all_faces as [| faces all_faces IH]; intros all_feeds Hlen.
  - destruct all_feeds; [| discriminate]. repeat split; reflexivity.
  - simpl in Hlen. rewrite split_feeds_cons.
    destruct (IH (drop (length faces) all_feeds)) as (IH1 & IH2 & IH3).
    { rewrite length_drop. lia. }
    cbn [length map concat]. rewrite IH1, IH2, IH3.
    rewrite length_take_le by lia. rewrite take_drop. repeat split; reflexivity.
Qed.

Lemma split_feeds_partition_witness :
  length (split_feeds [10; 11; 12; 13; 14] [[true; true]; []; [true; false; true]]) = 3%nat
  /\ map length (split_feeds [10; 11; 12; 13; 14]
                   [[true; true]; []; [true; false; true]])
     = [2; 0; 3]%nat
  /\ concat (split_feeds [10; 11; 12; 13; 14]
               [[true; true]; []; [true; false; true]])
     = [10; 11; 12; 13; 14].
Proof.
  apply (split_feeds_partition [10; 11; 12; 13; 14]
           [[true; true]; []; [true; false; true]]).
  reflexivity.
Defined.

Example split_feeds_2_0_3 :
  split_feeds [10; 11; 12; 13; 14] [[true; true]; []; [true; false; true]]
  = [[10; 11]; []; [12; 13; 14]].
Proof. reflexivity. Qed.

(** ** Device selection *)

(** C9, as stated, fails: built without an accelerator index the predictor
    is on [cuda:0], not on the CPU.  (And the ordinal of a non-negative
    index is kept in a signed byte: 1000 selects the device of index -24,
    and an index of more than 32 bits is refused.) *)
Lemma init_default_not_cpu :
  (exists p, init (fun _ _ => Ok (fun _ => [])) None None = Ok p
             /\ self_device p = cuda 0 /\ self_device p <> cpu)
  /\ get_device 1000 = Ok (cuda (-24))
  /\ get_device (2 ^ 40) = Raise RuntimeError.
Proof.
  split; [| split; reflexivity].
  eexists. split; [reflexivity |]. split; [reflexivity | discriminate].
Qed.

(** C9, amended: [get_device] sends a negative index to the CPU and an
    index [0 <= i <= 127] to [cuda:i]; the index is not optional there.  The
    constructor's default index is 0, so a predictor built without an index
    is on [cuda:0]; built with an explicit index it is on the device
    [get_device] selects. *)
Theorem get_device_spec (gpu_id : Z) (load : string -> device -> result network)
    (backbone : option string) :
  gpu_id <= 127 ->
  get_device gpu_id = Ok (if gpu_id <? 0 then cpu else cuda gpu_id)
  /\ init load None backbone = init load (Some 0) backbone
  /\ match init load None backbone with
     | Ok p => self_device p = cuda 0
     | Raise e => True
     end
  /\ match init load (Some gpu_id) backbone with
     | Ok p => self_device p = if gpu_id <? 0 then cpu else cuda gpu_id
     | Raise e => True
     end.
Proof.
  intros Hid.
  assert (Hdev : get_device gpu_id = Ok (if gpu_id <? 0 then cpu else cuda gpu_id)).
  { unfold get_device, torch_device_cuda.
    destruct (Z.gtb_spec gpu_id (-1)), (Z.ltb_spec gpu_id 0);
      try reflexivity; try lia.
    destruct (Z.ltb_spec gpu_id (2 ^ 31)); [| lia].
    unfold wrap8. rewrite Z.mod_small by lia. do 2 f_equal. lia. }
  split; [exact Hdev |]. split; [reflexivity |].
  unfold init. split.
  - change (get_device (default 0 None)) with (Ok (cuda 0)).
    unfold mbind, result_bind.
    destruct (_ || _); [| exact I].
    destruct (load _ _); [reflexivity | exact I].
  - change (default 0 (Some gpu_id)) with gpu_id. rewrite Hdev.
    unfold mbind, result_bind.
    destruct (_ || _); [| exact I].
    destruct (load _ _); [reflexivity | exact I].
Qed.

Lemma get_device_spec_witness :
  get_device 3 = Ok (cuda 3) /\ get_device (-1) = Ok cpu.
Proof.
  split.
  - apply (get_device_spec 3 (fun _ _ => Ok (fun _ => [])) None). lia.
  - apply (get_device_spec (-1) (fun _ _ => Ok (fun _ => [])) None). lia.
Defined.

(** ** The result monad *)

Lemma mapM_Ok {A B : Type} (f : A -> result B) (l : list A) (ys : list B) :
  mapM f l = Ok ys <-> Forall2 (fun x y => f x = Ok y) l ys.
Proof.
  revert ys. induction l as [| x l IH]; intros ys; simpl.
  - split.
    + intros [= <-]. constructor.
    + intros H. inversion H. reflexivity.
  - unfold mbind, result_bind, mret, result_ret.
    destruct (f x) as [y | e] eqn:Hx.
    + destruct (mapM f l) as [k | e] eqn:Hl.
      * split.
        -- intros [= <-]. constructor; [assumption | apply IH; reflexivity].
        -- intros H. inversion H as [| ? y' ? k' Hy Hk]; subst.
           apply IH in Hk. congruence.
      * split; [discriminate |].
        intros H. inversion H as [| ? y' ? k' Hy Hk]; subst.
        apply IH in Hk. discriminate.
    + split; [discriminate |].
      intros H. inversion H; subst. congruence.
Qed.

(** ** One batch for the whole feed list *)

Lemma chunks_nil {A : Type} (fuel k : nat) : chunks fuel k (@nil A) = [].
Proof. destruct fuel; reflexivity. Qed.

Lemma chunks_whole {A : Type} (l : list A) :
  l <> [] -> chunks (length l) (length l) l = [l].
Proof.
  intros Hl. destruct l as [| x l]; [contradiction |].
  cbn [length chunks]. rewrite take_ge, drop_ge by (simpl; lia).
  rewrite chunks_nil. reflexivity.
Qed.

Lemma DataLoader_whole (fs : list feed) :
  DataLoader fs (Z.of_nat (length fs)) =
  match fs with
  | [] => Raise ValueError
  | _ => Ok [fs]
  end.
Proof.
  unfold DataLoader. destruct fs as [| f fs]; [reflexivity |].
  destruct (Z.leb_spec (Z.of_nat (length (f :: fs))) 0) as [H | H].
  - simpl in H. lia.
  - rewrite Nat2Z.id, chunks_whole by discriminate. reflexivity.
Qed.

Lemma batch_predict2_one_batch (model : network) (feeds : feeds_arg)
    (dev : device) (batch_size : option Z) :
  batch_predict2 model feeds dev batch_size
  = match feeds_of feeds with
    | [] => Raise ValueError
    | fs => predict_batches model [fs] []
    end.
Proof.
  unfold batch_predict2. fold (feeds_of feeds).
  rewrite DataLoader_whole. destruct (feeds_of feeds); reflexivity.
Qed.

(** C10: [batch_size] has no effect on what [batch_predict2] returns or
    raises; whatever its value, the loader is built with the length of the
    feed list, so a list that is not empty goes through the network as one
    batch (and an empty one is refused by the loader). *)
Theorem batch_size_ignored (model : network) (feeds : feeds_arg)
    (dev : device) (batch_size batch_size' : option Z) :
  batch_predict2 model feeds dev batch_size
    = batch_predict2 model feeds dev batch_size'
  /\ batch_predict2 model feeds dev batch_size
     = match feeds_of feeds with
       | [] => Raise ValueError
       | fs => predict_batches model [fs] []
       end.
Proof.
  split; [reflexivity | apply batch_predict2_one_batch].
Qed.

(** ** Geometry of the crop on integer boxes *)

Lemma inject_Z_add (a b : Z) : (inject_Z a + inject_Z b)%Q = inject_Z (a + b).
Proof. unfold Qplus, inject_Z. simpl. f_equal. lia. Qed.

Lemma inject_Z_sub (a b : Z) : (inject_Z a - inject_Z b)%Q = inject_Z (a - b).
Proof. unfold Qminus, Qplus, Qopp, inject_Z. simpl. f_equal. lia. Qed.

Lemma inject_Z_neg (a : Z) : (- inject_Z a)%Q = inject_Z (- a).
Proof. reflexivity. Qed.

Lemma py_int_scale (m : Z) : py_int (inject_Z m * (6 # 5)) = Z.quot (m * 6) 5.
Proof. reflexivity. Qed.

(** Integers below 2^24 in magnitude go through float32 unchanged. *)
Lemma rne_int (x : Q) (z : Z) : x == inject_Z z -> rne x = z.
Proof.
  intros Hx. unfold rne.
  rewrite (Qfloor_comp _ _ Hx), Qfloor_Z.
  assert (Hr : Qltb (x - inject_Z z) (1 # 2) = true) by (apply Qltb_lt; lra).
  rewrite Hr. reflexivity.
Qed.

Lemma Qlog2_int_le (z : Z) : Qlog2 (inject_Z z) <= Z.log2 (Z.abs z).
Proof.
  unfold Qlog2. cbn [Qnum Qden inject_Z]. change (Z.log2 1) with 0.
  destruct (if 0 <=? _ then _ else _); lia.
Qed.

Lemma float32_int (z : Z) :
  - 2 ^ 24 < z < 2 ^ 24 -> float32 (inject_Z z) == inject_Z z.
Proof.
  intros Hz. unfold float32. cbn [Qnum inject_Z].
  destruct (Z.eqb_spec z 0) as [-> | Hnz]; [reflexivity |].
  pose proof (Qlog2_int_le z) as Hle.
  assert (Hlog : Z.log2 (Z.abs z) < 24) by (apply Z.log2_lt_pow2; lia).
  set (k := Qlog2 (inject_Z z) - 23) in *.
  destruct (Z.leb_spec 0 k) as [Hk | Hk].
  - assert (k = 0) as -> by lia. change (2 ^ 0) with 1.
    rewrite (rne_int _ z), Z.mul_1_r; [reflexivity |].
    unfold Qdiv. change (/ inject_Z 1)%Q with 1%Q. ring.
  - assert (HP : 0 < 2 ^ (- k)) by (apply Z.pow_pos_nonneg; lia).
    rewrite (rne_int _ (z * 2 ^ (- k))) by (rewrite inject_Z_mult; reflexivity).
    unfold Qeq. cbn [Qnum Qden inject_Z]. rewrite Z2Pos.id by exact HP. ring.
Qed.

Lemma float32_exact (z : Z) :
  - 2 ^ 24 < z < 2 ^ 24 -> py_int (float32 (inject_Z z)) = z.
Proof.
  intros Hz. rewrite (py_int_proper _ _ (float32_int z Hz)). apply py_int_inject.
Qed.

(** On a box with integer coordinates every quantity of the plan is an
    integer, given by the same formulas over [Z]; the box of the feed is
    what float32 leaves of the clipped one. *)
Lemma crop_geometry_int (img_height img_width : N) (x1 y1 x2 y2 : Z) :
  let w := x2 - x1 + 1 in
  let h := y2 - y1 + 1 in
  let s := Z.quot (Z.min w h * 6) 5 in
  let x1s := x1 + w / 2 - s / 2 in
  let y1s := y1 + h / 2 - s / 2 in
  let x2s := x1s + s in
  let y2s := y1s + s in
  crop_geometry img_height img_width (int_box x1 y1 x2 y2) =
  {| size := s;
     region := (inject_Z x1s, inject_Z y1s, inject_Z x2s, inject_Z y2s);
     dx := inject_Z (Z.max 0 (- x1s));
     dy := inject_Z (Z.max 0 (- y1s));
     edx := inject_Z (Z.max 0 (x2s - Z.of_N img_width));
     edy := inject_Z (Z.max 0 (y2s - Z.of_N img_height));
     new_bbox :=
       (py_int (float32 (inject_Z (Z.max 0 x1s))),
        py_int (float32 (inject_Z (Z.max 0 y1s))),
        py_int (float32 (inject_Z (Z.min (Z.of_N img_width) x2s))),
        py_int (float32 (inject_Z (Z.min (Z.of_N img_height) y2s)))) |}.
Proof.
  intros w h s x1s y1s x2s y2s.
  unfold crop_geometry, int_box.
  change 1%Q with (inject_Z 1). change 0%Q with (inject_Z 0).
  rewrite !inject_Z_sub, !inject_Z_add. fold w h.
  rewrite py_min_inject, py_int_scale. fold s.
  rewrite !float_floordiv2_inject, !inject_Z_add, !inject_Z_sub. fold x1s y1s.
  rewrite !inject_Z_add. fold x2s y2s.
  rewrite !inject_Z_neg, !inject_Z_sub, !py_max_inject, !py_min_inject.
  reflexivity.
Qed.

(** When the image sides and the square are below 2^24, float32 holds the
    clipped box exactly. *)
Lemma crop_geometry_small (img_height img_width : N) (x1 y1 x2 y2 : Z) :
  let w := x2 - x1 + 1 in
  let h := y2 - y1 + 1 in
  let s := Z.quot (Z.min w h * 6) 5 in
  let x1s := x1 + w / 2 - s / 2 in
  let y1s := y1 + h / 2 - s / 2 in
  let x2s := x1s + s in
  let y2s := y1s + s in
  Z.of_N img_width < 2 ^ 24 -> Z.of_N img_height < 2 ^ 24 ->
  x1s < 2 ^ 24 -> y1s < 2 ^ 24 -> - 2 ^ 24 < x2s -> - 2 ^ 24 < y2s ->
  crop_geometry img_height img_width (int_box x1 y1 x2 y2) =
  {| size := s;
     region := (inject_Z x1s, inject_Z y1s, inject_Z x2s, inject_Z y2s);
     dx := inject_Z (Z.max 0 (- x1s));
     dy := inject_Z (Z.max 0 (- y1s));
     edx := inject_Z (Z.max 0 (x2s - Z.of_N img_width));
     edy := inject_Z (Z.max 0 (y2s - Z.of_N img_height));
     new_bbox := (Z.max 0 x1s, Z.max 0 y1s,
                  Z.min (Z.of_N img_width) x2s, Z.min (Z.of_N img_height) y2s) |}.
Proof.
  intros w h s x1s y1s x2s y2s HW HH Hx1 Hy1 Hx2 Hy2.
  pose proof (crop_geometry_int img_height img_width x1 y1 x2 y2) as Hg.
  cbv zeta in Hg. fold w h s x1s y1s x2s y2s in Hg. rewrite Hg.
  rewrite !float32_exact by lia. reflexivity.
Qed.

(** ** Slices, borders and the crop handed to the resize *)

Lemma slice_index_inside (n : N) (i : Z) :
  0 <= i <= Z.of_N n -> slice_index n i = i.
Proof.
  intros H. unfold slice_index. destruct (Z.ltb_spec i 0); lia.
Qed.

Lemma slice_len_inside (n : N) (a b : Z) :
  0 <= a -> a <= b -> b <= Z.of_N n -> Z.of_N (slice_len n a b) = b - a.
Proof.
  intros Ha Hab Hb. unfold slice_len.
  rewrite !slice_index_inside by lia. lia.
Qed.

Lemma py_max_nonneg (q : Q) : (0 <= py_max 0 q)%Q.
Proof.
  unfold py_max. destruct (Qltb 0 q) eqn:E.
  - apply Qltb_lt in E. apply Qlt_le_weak. assumption.
  - apply Qle_refl.
Qed.

Lemma py_int_nonneg (q : Q) : (0 <= q)%Q -> 0 <= py_int q.
Proof.
  intros H. rewrite py_int_floor by assumption.
  change 0 with (Qfloor 0). apply Qfloor_resp_le. assumption.
Qed.

Lemma py_int_zero (q : Q) : (0 <= q)%Q -> Qltb 0 q = false -> py_int q = 0.
Proof.
  intros H0 H1. apply Qltb_ge in H1.
  assert (Hq : q == 0) by (apply Qle_antisym; assumption).
  rewrite (py_int_proper _ _ Hq). reflexivity.
Qed.

(** The crop handed to the resize always exists in the model, and its shape
    is that of the slice plus the truncated margins. *)
Lemma padded_crop_shape (img : image) (face : face_box) :
  let g := crop_geometry (height img) (width img) face in
  exists c, padded_crop img g = Ok c
    /\ height c = (slice_len (height img) (snd (fst (fst (new_bbox g))))
                                          (snd (new_bbox g))
                   + Z.to_N (py_int (dy g)) + Z.to_N (py_int (edy g)))%N
    /\ width c = (slice_len (width img) (fst (fst (fst (new_bbox g))))
                                        (snd (fst (new_bbox g)))
                  + Z.to_N (py_int (dx g)) + Z.to_N (py_int (edx g)))%N.
Proof.
  intros g.
  assert (Hdx : (0 <= dx g)%Q).
  { unfold g, crop_geometry. destruct face as [[[x1 y1] x2] y2].
    apply py_max_nonneg. }
  assert (Hdy : (0 <= dy g)%Q).
  { unfold g, crop_geometry. destruct face as [[[x1 y1] x2] y2].
    apply py_max_nonneg. }
  assert (Hedx : (0 <= edx g)%Q).
  { unfold g, crop_geometry. destruct face as [[[x1 y1] x2] y2].
    apply py_max_nonneg. }
  assert (Hedy : (0 <= edy g)%Q).
  { unfold g, crop_geometry. destruct face as [[[x1 y1] x2] y2].
    apply py_max_nonneg. }
  unfold padded_crop. destruct (new_bbox g) as [[[bx1 by1] bx2] by2].
  cbn [fst snd].
  destruct (Qltb 0 (dx g)) eqn:E1, (Qltb 0 (dy g)) eqn:E2,
           (Qltb 0 (edx g)) eqn:E3, (Qltb 0 (edy g)) eqn:E4; cbn [orb];
    try (unfold copyMakeBorder;
         pose proof (py_int_nonneg _ Hdx); pose proof (py_int_nonneg _ Hdy);
         pose proof (py_int_nonneg _ Hedx); pose proof (py_int_nonneg _ Hedy);
         destruct (Z.ltb_spec (py_int (dy g)) 0); [lia |];
         destruct (Z.ltb_spec (py_int (edy g)) 0); [lia |];
         destruct (Z.ltb_spec (py_int (dx g)) 0); [lia |];
         destruct (Z.ltb_spec (py_int (edx g)) 0); [lia |];
         cbn [orb]; eexists; split; [reflexivity |];
         split; reflexivity).
  eexists. split; [reflexivity |].
  rewrite (py_int_zero _ Hdx E1), (py_int_zero _ Hdy E2),
          (py_int_zero _ Hedx E3), (py_int_zero _ Hedy E4).
  cbn [crop height width]. split; lia.
Qed.

Lemma out_size_pos (backbone : string) : (0 < out_size_of backbone)%N.
Proof. unfold out_size_of. destruct (String.eqb _ _); lia. Qed.

(** [prepare_feed] once the crop is known: the resize rejects an empty crop,
    and the shape test that follows the resize never fires. *)
Lemma prepare_feed_cases (interp : image -> N -> Z -> Z -> Z -> byte)
    (img : image) (face : face_box) (backbone : string) (c : image) :
  padded_crop img (crop_geometry (height img) (width img) face) = Ok c ->
  prepare_feed interp img face backbone =
  if ((height c =? 0) || (width c =? 0))%N
  then Raise CvError
  else Ok {| data := normalize backbone
                       {| height := out_size_of backbone;
                          width := out_size_of backbone;
                          pixel := interp c (out_size_of backbone) |};
             feed_bbox := new_bbox (crop_geometry (height img) (width img) face) |}.
Proof.
  intros Hc. unfold prepare_feed. rewrite Hc.
  unfold mbind, result_bind, resize.
  destruct ((height c =? 0) || (width c =? 0))%N; [reflexivity |].
  cbn [height width]. pose proof (out_size_pos backbone).
  destruct (Z.leb_spec (Z.of_N (out_size_of backbone)) 0); [lia |].
  reflexivity.
Qed.

Lemma prepare_feed_raises (interp : image -> N -> Z -> Z -> Z -> byte)
    (img : image) (face : face_box) (backbone : string) (e : exn) :
  prepare_feed interp img face backbone = Raise e -> e = CvError.
Proof.
  destruct (padded_crop_shape img face) as (c & Hc & _).
  rewrite (prepare_feed_cases _ _ _ _ _ Hc).
  destruct (_ || _)%N; [| discriminate]. intros [= <-]. reflexivity.
Qed.

Lemma prepare_feed_shape (interp : image -> N -> Z -> Z -> Z -> byte)
    (img : image) (face : face_box) (backbone : string) (f : feed) :
  prepare_feed interp img face backbone = Ok f ->
  shape (data f) = (3%N, out_size_of backbone, out_size_of backbone).
Proof.
  destruct (padded_crop_shape img face) as (c & Hc & _).
  rewrite (prepare_feed_cases _ _ _ _ _ Hc).
  destruct (_ || _)%N; [discriminate |]. intros [= <-]. reflexivity.
Qed.

(** C2, as stated, fails: the box is built as a float32 tensor before it
    is converted to integers.  On an image 33554432 pixels wide the box
    (16777217, 0, 16777217, 0) has the square region
    (16777217, 0, 16777218, 1), all inside the image, and the feed carries
    (16777216, 0, 16777218, 1). *)
Lemma prepare_feed_bbox_rounded :
  region (crop_geometry 10 33554432 (int_box 16777217 0 16777217 0))
  = (inject_Z 16777217, inject_Z 0, inject_Z 16777218, inject_Z 1)
  /\ exists f,
       prepare_feed nearest (flat_image 10 33554432 x00)
         (int_box 16777217 0 16777217 0) "PFLD" = Ok f
       /\ feed_bbox f = (16777216, 0, 16777218, 1)
       /\ feed_bbox f <> (16777217, 0, 16777218, 1).
Proof.
  split; [reflexivity |]. eexists. split; [reflexivity |].
  split; [reflexivity | discriminate].
Qed.

(** C2, amended: for an integer box on an image of fewer than 2^24 rows and
    columns, with [size = int(min(w, h) * 1.2)] and the square region
    [x1s = x1 + w // 2 - size // 2], [x2s = x1s + size] (and the same in
    y) below 2^24 in magnitude where it is kept, the box that
    [prepare_feed] puts in the feed is the region clipped to the image,
    [max(0, x1s), max(0, y1s), min(W, x2s), min(H, y2s)], whatever padding
    was applied to the pixels: its first corner is never negative and its
    second corner never beyond the image, as the padded extents would be.
    When no feed is returned, the resize has raised. *)
Theorem prepare_feed_bbox (interp : image -> N -> Z -> Z -> Z -> byte)
    (img : image) (x1 y1 x2 y2 : Z) (backbone : string)
    (s x1s y1s x2s y2s : Z) :
  s = Z.quot (Z.min (x2 - x1 + 1) (y2 - y1 + 1) * 6) 5 ->
  x1s = x1 + (x2 - x1 + 1) / 2 - s / 2 -> x2s = x1s + s ->
  y1s = y1 + (y2 - y1 + 1) / 2 - s / 2 -> y2s = y1s + s ->
  Z.of_N (width img) < 2 ^ 24 -> Z.of_N (height img) < 2 ^ 24 ->
  x1s < 2 ^ 24 -> y1s < 2 ^ 24 -> - 2 ^ 24 < x2s -> - 2 ^ 24 < y2s ->
  match prepare_feed interp img (int_box x1 y1 x2 y2) backbone with
  | Ok f =>
      feed_bbox f = (Z.max 0 x1s, Z.max 0 y1s,
                     Z.min (Z.of_N (width img)) x2s,
                     Z.min (Z.of_N (height img)) y2s)
      /\ (let '(bx1, by1, bx2, by2) := feed_bbox f in
          0 <= bx1 /\ 0 <= by1
          /\ bx2 <= Z.of_N (width img) /\ by2 <= Z.of_N (height img))
  | Raise e => e = CvError
  end.
Proof.
  intros Hs Hx1s Hx2s Hy1s Hy2s HW HH Bx1 By1 Bx2 By2.
  destruct (prepare_feed interp img (int_box x1 y1 x2 y2) backbone)
    as [f | e] eqn:Hp; [| exact (prepare_feed_raises _ _ _ _ _ Hp)].
  destruct (padded_crop_shape img (int_box x1 y1 x2 y2)) as (c & Hc & _).
  rewrite (prepare_feed_cases _ _ _ _ _ Hc) in Hp.
  pose proof (crop_geometry_small (height img) (width img) x1 y1 x2 y2) as Hg.
  cbv zeta in Hg. rewrite <- Hs, <- Hx1s, <- Hy1s, <- Hx2s, <- Hy2s in Hg.
  rewrite (Hg HW HH Bx1 By1 Bx2 By2) in Hp. cbn [new_bbox] in Hp.
  destruct (_ || _)%N; [discriminate |]. injection Hp as <-.
  cbn [feed_bbox].
  split; [reflexivity |]. lia.
Qed.

Lemma prepare_feed_bbox_witness :
  match prepare_feed nearest (flat_image 100 100 x80) (int_box 90 10 109 29) "PFLD" with
  | Ok f =>
      feed_bbox f = (Z.max 0 88, Z.max 0 8, Z.min 100 112, Z.min 100 32)
      /\ (let '(bx1, by1, bx2, by2) := feed_bbox f in
          0 <= bx1 /\ 0 <= by1 /\ bx2 <= 100 /\ by2 <= 100)
  | Raise e => e = CvError
  end.
Proof.
  apply (prepare_feed_bbox nearest (flat_image 100 100 x80) 90 10 109 29 "PFLD"
           24 88 8 112 32); try reflexivity; cbn; lia.
Defined.

(** The clipped box and the margins always add up to the square, as
    numbers; whether the pixels do depends on the slice. *)
Lemma clip_identity (lo hi n : Z) :
  Z.min n hi - Z.max 0 lo + Z.max 0 (- lo) + Z.max 0 (hi - n) = hi - lo.
Proof. lia. Qed.

(** C3: the code computes the margins that restore the square but takes
    the crop with a slice whose bounds may be negative.  On a 100 x 100
    image the box (-50, 10, -31, 29) has size 24, its square lies left of
    the image, the left margin is 52, the clipped bounds 0 and -28 select
    72 columns counted from the right end, and the crop handed to the resize
    is 24 rows by 124 columns instead of 24 by 24. *)
Lemma crop_not_square_off_image :
  let img := flat_image 100 100 x00 in
  let g := crop_geometry (height img) (width img) (int_box (-50) 10 (-31) 29) in
  size g = 24
  /\ new_bbox g = (0, 8, -28, 32)
  /\ exists c, padded_crop img g = Ok c
               /\ height c = 24%N /\ width c = 124%N.
Proof.
  cbv zeta. split; [reflexivity |]. split; [reflexivity |].
  eexists. split; [reflexivity |]. split; reflexivity.
Qed.

(** ** Boxes that are empty *)


Lemma region_small (x1 y1 x2 y2 : Z) :
  - 2 ^ 21 < x1 < 2 ^ 21 -> - 2 ^ 21 < y1 < 2 ^ 21 ->
  - 2 ^ 21 < x2 < 2 ^ 21 -> - 2 ^ 21 < y2 < 2 ^ 21 ->
  let s := Z.quot (Z.min (x2 - x1 + 1) (y2 - y1 + 1) * 6) 5 in
  let x1s := x1 + (x2 - x1 + 1) / 2 - s / 2 in
  let y1s := y1 + (y2 - y1 + 1) / 2 - s / 2 in
  (- 2 ^ 24 < x1s < 2 ^ 24 /\ - 2 ^ 24 < x1s + s < 2 ^ 24)
  /\ (- 2 ^ 24 < y1s < 2 ^ 24 /\ - 2 ^ 24 < y1s + s < 2 ^ 24).
Proof.
  intros Hx1 Hy1 Hx2 Hy2. cbv zeta.
  change (2 ^ 21) with 2097152 in *. change (2 ^ 24) with 16777216.
  Z.to_euclidean_division_equations. lia.
Qed.



(** ** The crop of a box whose square meets the image *)

Lemma padded_crop_content (img : image) (x1 y1 x2 y2 : Z) (x1s y1s x2s y2s : Z) :
  region (crop_geometry (height img) (width img) (int_box x1 y1 x2 y2))
    = (inject_Z x1s, inject_Z y1s, inject_Z x2s, inject_Z y2s) ->
  Z.of_N (width img) < 2 ^ 24 -> Z.of_N (height img) < 2 ^ 24 ->
  Z.max 0 x1s < Z.min (Z.of_N (width img)) x2s ->
  Z.max 0 y1s < Z.min (Z.of_N (height img)) y2s ->
  new_bbox (crop_geometry (height img) (width img) (int_box x1 y1 x2 y2))
    = (Z.max 0 x1s, Z.max 0 y1s,
       Z.min (Z.of_N (width img)) x2s, Z.min (Z.of_N (height img)) y2s)
  /\ exists c,
    padded_crop img (crop_geometry (height img) (width img) (int_box x1 y1 x2 y2))
      = Ok c
    /\ Z.of_N (height c) = y2s - y1s /\ Z.of_N (width c) = x2s - x1s
    /\ (forall i j ch, 0 <= i < y2s - y1s -> 0 <= j < x2s - x1s ->
          pixel c i j ch =
          if (0 <=? y1s + i) && (y1s + i <? Z.of_N (height img))
             && (0 <=? x1s + j) && (x1s + j <? Z.of_N (width img))
          then pixel img (y1s + i) (x1s + j) ch
          else x00).
Proof.
  intros Hr HW HH Hx Hy.
  pose proof (crop_geometry_int (height img) (width img) x1 y1 x2 y2) as Hg0.
  cbv zeta in Hg0. rewrite Hg0 in Hr. cbn [region] in Hr.
  injection Hr as E1 E2 E3 E4. clear Hg0.
  pose proof (crop_geometry_small (height img) (width img) x1 y1 x2 y2) as Hg.
  cbv zeta in Hg.
  assert (E3' : x1s + Z.quot (Z.min (x2 - x1 + 1) (y2 - y1 + 1) * 6) 5 = x2s)
    by (rewrite <- E1; exact E3).
  assert (E4' : y1s + Z.quot (Z.min (x2 - x1 + 1) (y2 - y1 + 1) * 6) 5 = y2s)
    by (rewrite <- E2; exact E4).
  clear E3 E4.
  assert (Hplan :
    crop_geometry (height img) (width img) (int_box x1 y1 x2 y2) =
    {| size := x2s - x1s;
       region := (inject_Z x1s, inject_Z y1s, inject_Z x2s, inject_Z y2s);
       dx := inject_Z (Z.max 0 (- x1s)); dy := inject_Z (Z.max 0 (- y1s));
       edx := inject_Z (Z.max 0 (x2s - Z.of_N (width img)));
       edy := inject_Z (Z.max 0 (y2s - Z.of_N (height img)));
       new_bbox := (Z.max 0 x1s, Z.max 0 y1s,
                    Z.min (Z.of_N (width img)) x2s,
                    Z.min (Z.of_N (height img)) y2s) |}).
  { rewrite Hg, E1, E2, E3', E4' by (rewrite ?E1, ?E2, ?E3', ?E4'; lia).
    f_equal. lia. }
  clear Hg E1 E2.
  split; [rewrite Hplan; reflexivity |].
  rewrite Hplan. unfold padded_crop. cbn [new_bbox dx dy edx edy].
  change 0%Q with (inject_Z 0). rewrite !Qltb_inject, !py_int_inject.
  assert (Hsx : Z.of_N (slice_len (width img) (Z.max 0 x1s)
                          (Z.min (Z.of_N (width img)) x2s))
                = Z.min (Z.of_N (width img)) x2s - Z.max 0 x1s)
    by (apply slice_len_inside; lia).
  assert (Hsy : Z.of_N (slice_len (height img) (Z.max 0 y1s)
                          (Z.min (Z.of_N (height img)) y2s))
                = Z.min (Z.of_N (height img)) y2s - Z.max 0 y1s)
    by (apply slice_len_inside; lia).
  assert (Hix : slice_index (width img) (Z.max 0 x1s) = Z.max 0 x1s)
    by (apply slice_index_inside; lia).
  assert (Hiy : slice_index (height img) (Z.max 0 y1s) = Z.max 0 y1s)
    by (apply slice_index_inside; lia).
  destruct ((0 <? Z.max 0 (- x1s)) || (0 <? Z.max 0 (- y1s))
            || (0 <? Z.max 0 (x2s - Z.of_N (width img)))
            || (0 <? Z.max 0 (y2s - Z.of_N (height img)))) eqn:Epad.
  - unfold copyMakeBorder.
    destruct (Z.ltb_spec (Z.max 0 (- y1s)) 0); [lia |].
    destruct (Z.ltb_spec (Z.max 0 (y2s - Z.of_N (height img))) 0); [lia |].
    destruct (Z.ltb_spec (Z.max 0 (- x1s)) 0); [lia |].
    destruct (Z.ltb_spec (Z.max 0 (x2s - Z.of_N (width img))) 0); [lia |].
    cbn [orb]. eexists. split; [reflexivity |].
    cbn [height width pixel crop]. rewrite !N2Z.inj_add, Hsx, Hsy.
    split; [lia |]. split; [lia |].
    intros i j ch Hi Hj. rewrite ?Hsx, ?Hsy, ?Hix, ?Hiy.
    destruct (Z.leb_spec (Z.max 0 (- y1s)) i),
             (Z.ltb_spec i (Z.max 0 (- y1s)
                            + (Z.min (Z.of_N (height img)) y2s - Z.max 0 y1s))),
             (Z.leb_spec (Z.max 0 (- x1s)) j),
             (Z.ltb_spec j (Z.max 0 (- x1s)
                            + (Z.min (Z.of_N (width img)) x2s - Z.max 0 x1s))),
             (Z.leb_spec 0 (y1s + i)),
             (Z.ltb_spec (y1s + i) (Z.of_N (height img))),
             (Z.leb_spec 0 (x1s + j)),
             (Z.ltb_spec (x1s + j) (Z.of_N (width img)));
      cbn [andb]; try reflexivity; try lia.
    f_equal; lia.
  - apply orb_false_elim in Epad. destruct Epad as [Epad E4].
    apply orb_false_elim in Epad. destruct Epad as [Epad E3].
    apply orb_false_elim in Epad. destruct Epad as [E1 E2].
    apply Z.ltb_ge in E1, E2, E3, E4.
    eexists. split; [reflexivity |].
    cbn [height width pixel crop]. rewrite Hsx, Hsy, Hix, Hiy.
    split; [lia |]. split; [lia |].
    intros i j ch Hi Hj.
    destruct (Z.leb_spec 0 (y1s + i)),
             (Z.ltb_spec (y1s + i) (Z.of_N (height img))),
             (Z.leb_spec 0 (x1s + j)),
             (Z.ltb_spec (x1s + j) (Z.of_N (width img)));
      cbn [andb]; try lia.
    f_equal; lia.
Qed.

(** ** Boxes inside the image *)

Lemma unit_pixel (b : byte) : (0 <= byte_to_Q b / 255 /\ byte_to_Q b / 255 <= 1)%Q.
Proof.
  pose proof (Byte.to_N_bounded b) as Hb.
  unfold byte_to_Q, Qdiv, Qle, Qmult, Qinv, inject_Z. simpl. lia.
Qed.

(** The square of an integer box inside the image meets the image. *)
Lemma inside_meets (W H x1 y1 x2 y2 : Z) :
  0 <= x1 -> x1 <= x2 -> x2 <= W - 1 ->
  0 <= y1 -> y1 <= y2 -> y2 <= H - 1 ->
  let s := Z.quot (Z.min (x2 - x1 + 1) (y2 - y1 + 1) * 6) 5 in
  let x1s := x1 + (x2 - x1 + 1) / 2 - s / 2 in
  let y1s := y1 + (y2 - y1 + 1) / 2 - s / 2 in
  1 <= s
  /\ Z.max 0 x1s < Z.min W (x1s + s)
  /\ Z.max 0 y1s < Z.min H (y1s + s).
Proof.
  intros Hx1 Hx12 Hx2 Hy1 Hy12 Hy2. cbv zeta.
  Z.to_euclidean_division_equations. lia.
Qed.




(** ** One call on many boxes against many calls on one box *)

Lemma Forall2_through {A B C : Type} (P : A -> B -> Prop) (Q : B -> C -> Prop)
    (xs : list A) (zs : list C) :
  (exists ys, Forall2 P xs ys /\ Forall2 Q ys zs)
  <-> Forall2 (fun x z => exists y, P x y /\ Q y z) xs zs.
Proof.
  revert zs. induction xs as [| x xs IH]; intros zs.
  - split.
    + intros (ys & H1 & H2). inversion H1; subst. inversion H2; subst. constructor.
    + intros H. inversion H; subst. exists []. split; constructor.
  - split.
    + intros (ys & H1 & H2).
      inversion H1 as [| ? y ? ys' Hxy Hrest]; subst.
      inversion H2 as [| ? z ? zs' Hyz Hrest']; subst.
      constructor; [eauto |]. apply IH. eauto.
    + intros H. inversion H as [| ? z ? zs' (y & Hxy & Hyz) Hrest]; subst.
      apply IH in Hrest. destruct Hrest as (ys & H1 & H2).
      exists (y :: ys). split; constructor; assumption.
Qed.

Lemma zip_rows (net : tensor -> list Q) (fs : list feed) :
  zip (map net (map data fs)) (map feed_bbox fs)
  = map (fun f => (net (data f), feed_bbox f)) fs.
Proof. induction fs as [| f fs IH]; [reflexivity |]. simpl. rewrite IH. reflexivity. Qed.

Lemma reproject_all_infer (net : tensor -> list Q) (fs : list feed)
    (results : list landmarks) :
  reproject_all (map (fun f => (net (data f), feed_bbox f)) fs) results
  = match mapM (infer net) fs with
    | Ok rs => Ok (results ++ rs)
    | Raise e => Raise e
    end.
Proof.
  revert results. induction fs as [| f fs IH]; intros results.
  - simpl. rewrite app_nil_r. reflexivity.
  - cbn [map reproject_all mapM]. unfold infer at 2.
    unfold mbind, result_bind, mret, result_ret in *.
    destruct (reshape_pairs (net (data f))) as [lm | e]; [| reflexivity].
    rewrite IH. destruct (mapM (infer net) fs) as [rs | e]; [| reflexivity].
    rewrite <- app_assoc. reflexivity.
Qed.

Lemma same_shape_eq (t u : tensor) : shape t = shape u -> same_shape t u = true.
Proof.
  unfold same_shape. intros <-. destruct (shape t) as [[a b] c].
  rewrite !N.eqb_refl. reflexivity.
Qed.

Lemma collate_uniform (sh : N * N * N) (fs : list feed) :
  Forall (fun f => shape (data f) = sh) fs ->
  collate fs = Ok (map data fs, map feed_bbox fs).
Proof.
  intros H. unfold collate. destruct fs as [| f fs]; [reflexivity |].
  assert (Hall : forallb (fun f' => same_shape (data f) (data f')) (f :: fs) = true).
  { apply forallb_forall. intros f' Hin.
    rewrite Forall_forall in H. apply same_shape_eq.
    rewrite (H f), (H f'); [reflexivity | | ].
    - apply list_elem_of_In. exact Hin.
    - left. }
  rewrite Hall. reflexivity.
Qed.

Section Equivalence.

Context (is_box : boxes_arg -> bool).
Context (interp : image -> N -> Z -> Z -> Z -> byte).
Context (self : LandmarkPredictor).
Context (net : tensor -> list Q).
Hypothesis model_pointwise : forall batch, self_model self batch = map net batch.

Lemma inner_predict_list (sh : N * N * N) (fs : list feed) :
  fs <> [] ->
  Forall (fun f => shape (data f) = sh) fs ->
  _inner_predict self (feed_list fs)
  = match mapM (infer net) fs with
    | Ok rs => Ok (result_list rs)
    | Raise e => Raise e
    end.
Proof.
  intros Hne Hsh. unfold _inner_predict.
  rewrite batch_predict2_one_batch.
  cbn [feeds_of]. destruct fs as [| f fs]; [contradiction |].
  cbn [predict_batches]. rewrite (collate_uniform sh) by assumption.
  unfold mbind, result_bind. cbn [fst snd].
  rewrite model_pointwise, zip_rows, reproject_all_infer.
  destruct (mapM (infer net) (f :: fs)); reflexivity.
Qed.

Lemma inner_predict_one (f : feed) :
  _inner_predict self (one_feed f)
  = match infer net f with
    | Ok r => Ok (one_result r)
    | Raise e => Raise e
    end.
Proof.
  unfold _inner_predict.
  rewrite batch_predict2_one_batch.
  cbn [feeds_of predict_batches].
  rewrite (collate_uniform (shape (data f))) by (repeat constructor).
  unfold mbind, result_bind. cbn [fst snd].
  rewrite model_pointwise, zip_rows, reproject_all_infer.
  cbn [mapM]. unfold mbind, result_bind, mret, result_ret.
  destruct (infer net f); reflexivity.
Qed.

Lemma call_box_Ok (img : image) (box : face_box) (r : landmarks) :
  call is_box interp self (image_box img box) = Ok (one_result r)
  <-> is_box (a_box box) = true
      /\ exists f, self_prepare_feed interp self img box = Ok f
                   /\ infer net f = Ok r.
Proof.
  cbn [call]. destruct (is_box (a_box box)).
  2: { split; [discriminate | intros [[=] _]]. }
  unfold mbind, result_bind.
  destruct (self_prepare_feed interp self img box) as [f | e].
  - rewrite inner_predict_one. split.
    + intros H. split; [reflexivity |]. exists f. split; [reflexivity |].
      destruct (infer net f); [| discriminate]. congruence.
    + intros (_ & f' & [= <-] & ->). reflexivity.
  - split; [discriminate | intros (_ & f' & [=] & _)].
Qed.

Lemma call_boxes_Ok (img : image) (boxes : list face_box) (rs : list landmarks) :
  boxes <> [] ->
  is_box (some_boxes boxes) = false ->
  Forall2 (fun box r => call is_box interp self (image_box img box)
                        = Ok (one_result r)) boxes rs ->
  call is_box interp self (image_boxes img boxes) = Ok (result_list rs).
Proof.
  intros Hne Hlist Hall.
  assert (Hex : exists fs,
    Forall2 (fun box f => self_prepare_feed interp self img box = Ok f) boxes fs
    /\ Forall2 (fun f r => infer net f = Ok r) fs rs).
  { apply Forall2_through. apply (Forall2_impl _ _ _ _ Hall).
    intros box r Hbr. apply call_box_Ok in Hbr. exact (proj2 Hbr). }
  destruct Hex as (fs & Hfs & Hrs).
  assert (Hfs_ne : fs <> []).
  { intros ->. inversion Hfs; subst. contradiction. }
  assert (Hsh : Forall (fun f => shape (data f)
            = (3%N, out_size_of (self_backbone self),
               out_size_of (self_backbone self))) fs).
  { clear - Hfs. induction Hfs as [| box f boxes' fs' Hbf _ IH];
      constructor; [| exact IH].
    exact (prepare_feed_shape _ _ _ _ _ Hbf). }
  cbn [call]. rewrite Hlist.
  rewrite (proj2 (mapM_Ok (fun box => self_prepare_feed interp self img box)
                    boxes fs) Hfs).
  unfold mbind at 1, result_bind at 1.
  rewrite (inner_predict_list _ _ Hfs_ne Hsh).
  apply mapM_Ok in Hrs. rewrite Hrs. reflexivity.
Qed.

Lemma call_no_boxes (img : image) :
  call is_box interp self (image_boxes img [])
  = if is_box (some_boxes []) then Raise IndexError else Raise ValueError.
Proof. cbn [call]. destruct (is_box _); reflexivity. Qed.


End Equivalence.



(** * Further properties of the code *)

(** ** Reprojection keeps the unit square inside the box *)

Lemma affine_between (a b : Z) (t : Q) :
  a <= b -> (0 <= t)%Q -> (t <= 1)%Q ->
  (inject_Z a <= t * inject_Z (b - a) + inject_Z a
   /\ t * inject_Z (b - a) + inject_Z a <= inject_Z b)%Q.
Proof.
  intros Hab H0 H1. rewrite Zle_Qle in Hab.
  unfold Z.sub. rewrite inject_Z_plus, inject_Z_opp. split; nra.
Qed.



(** ** When [prepare_feed] fails *)

(** X2: [prepare_feed] fails exactly when the crop handed to the resize has
    no rows or no columns, and the exception is then the one of OpenCV: the
    [NotADirectoryError] of the source is never raised, its test comes
    after the resize and sees the output size.  In every other case a feed
    is returned. *)
Theorem prepare_feed_outcome (interp : image -> N -> Z -> Z -> Z -> byte)
    (img : image) (face : face_box) (backbone : string) :
  exists c,
    padded_crop img (crop_geometry (height img) (width img) face) = Ok c
    /\ ((height c = 0%N \/ width c = 0%N) /\
        prepare_feed interp img face backbone = Raise CvError
        \/ (height c <> 0%N /\ width c <> 0%N) /\
           exists f, prepare_feed interp img face backbone = Ok f)
    /\ prepare_feed interp img face backbone <> Raise NotADirectoryError.
Proof.
  destruct (padded_crop_shape img face) as (c & Hc & _).
  exists c. split; [exact Hc |].
  rewrite (prepare_feed_cases _ _ _ _ _ Hc).
  destruct (N.eqb_spec (height c) 0) as [Hh | Hh];
    destruct (N.eqb_spec (width c) 0) as [Hw | Hw]; cbn [orb];
    (split; [| discriminate]).
  - left. split; [left; assumption | reflexivity].
  - left. split; [left; assumption | reflexivity].
  - left. split; [right; assumption | reflexivity].
  - right. split; [split; assumption |]. eexists. reflexivity.
Qed.

(** ** The tensor of any feed *)

Lemma normalize_range (backbone : string) (r : image) (c i j : Z) :
  0 <= c < 3 ->
  if String.eqb backbone "MobileNet"
  then ((0 - nth (Z.to_nat c) mean 0) / nth (Z.to_nat c) std 0
          <= value (normalize backbone r) c i j
        /\ value (normalize backbone r) c i j
          <= (1 - nth (Z.to_nat c) mean 0) / nth (Z.to_nat c) std 0)%Q
  else (0 <= value (normalize backbone r) c i j
        /\ value (normalize backbone r) c i j <= 1)%Q.
Proof.
  intros Hc. unfold normalize. cbn [value].
  destruct (unit_pixel (pixel r i j c)) as [H0 H1].
  destruct (String.eqb backbone "MobileNet"); [| split; assumption].
  set (u := (byte_to_Q (pixel r i j c) / 255)%Q) in *.
  assert (Hcase : c = 0 \/ c = 1 \/ c = 2) by lia.
  destruct Hcase as [-> | [-> | ->]];
    [ change (Z.to_nat 0) with 0%nat | change (Z.to_nat 1) with 1%nat
    | change (Z.to_nat 2) with 2%nat ]; cbn [nth mean std];
    unfold Qdiv;
    [ change (/ (229 # 1000))%Q with (1000 # 229)%Q
    | change (/ (224 # 1000))%Q with (1000 # 224)%Q
    | change (/ (225 # 1000))%Q with (1000 # 225)%Q ];
    split; lra.
Qed.



(** ** What the crop contains *)

(** X4: on an image of fewer than 2^24 rows and columns, for an integer
    box whose square region [x1s, y1s, x2s, y2s] meets the image (the
    clipped box is not empty), the crop handed to the resize is the square
    region itself: its pixel (i, j) is the pixel (y1s + i, x1s + j) of the
    image where that position exists and zero where it does not, and
    [prepare_feed] returns the feed computed from this crop together with
    the clipped box. *)
Theorem padded_crop_pixels (interp : image -> N -> Z -> Z -> Z -> byte)
    (img : image) (x1 y1 x2 y2 : Z) (backbone : string) (x1s y1s x2s y2s : Z) :
  region (crop_geometry (height img) (width img) (int_box x1 y1 x2 y2))
    = (inject_Z x1s, inject_Z y1s, inject_Z x2s, inject_Z y2s) ->
  Z.of_N (width img) < 2 ^ 24 -> Z.of_N (height img) < 2 ^ 24 ->
  Z.max 0 x1s < Z.min (Z.of_N (width img)) x2s ->
  Z.max 0 y1s < Z.min (Z.of_N (height img)) y2s ->
  exists c,
    padded_crop img (crop_geometry (height img) (width img) (int_box x1 y1 x2 y2))
      = Ok c
    /\ Z.of_N (height c) = y2s - y1s /\ Z.of_N (width c) = x2s - x1s
    /\ (forall i j ch, 0 <= i < y2s - y1s -> 0 <= j < x2s - x1s ->
          pixel c i j ch =
          if (0 <=? y1s + i) && (y1s + i <? Z.of_N (height img))
             && (0 <=? x1s + j) && (x1s + j <? Z.of_N (width img))
          then pixel img (y1s + i) (x1s + j) ch
          else x00)
    /\ prepare_feed interp img (int_box x1 y1 x2 y2) backbone
       = Ok {| data := normalize backbone
                         {| height := out_size_of backbone;
                            width := out_size_of backbone;
                            pixel := interp c (out_size_of backbone) |};
               feed_bbox := (Z.max 0 x1s, Z.max 0 y1s,
                             Z.min (Z.of_N (width img)) x2s,
                             Z.min (Z.of_N (height img)) y2s) |}.
Proof.
  intros Hr HW HH Hx Hy.
  destruct (padded_crop_content img x1 y1 x2 y2 _ _ _ _ Hr HW HH Hx Hy)
    as (Hb & c & Hc & Hh & Hw & Hpx).
  exists c. split; [exact Hc |]. split; [exact Hh |]. split; [exact Hw |].
  split; [exact Hpx |].
  rewrite (prepare_feed_cases _ _ _ _ _ Hc).
  destruct (N.eqb_spec (height c) 0) as [E | _]; [lia |].
  destruct (N.eqb_spec (width c) 0) as [E | _]; [lia |].
  cbn [orb]. rewrite Hb. reflexivity.
Qed.

Lemma padded_crop_pixels_witness :
  exists c,
    padded_crop (flat_image 100 100 x80)
      (crop_geometry 100 100 (int_box 90 10 109 29)) = Ok c
    /\ Z.of_N (height c) = 24 /\ Z.of_N (width c) = 24
    /\ pixel c 0 11 0 = x80 /\ pixel c 0 12 0 = x00.
Proof.
  destruct (padded_crop_pixels nearest (flat_image 100 100 x80) 90 10 109 29
              "PFLD" 88 8 112 32) as (c & Hc & Hh & Hw & Hpx & _);
    [reflexivity | cbn; lia | cbn; lia
    | vm_compute; reflexivity | vm_compute; reflexivity |].
  exists c. split; [exact Hc |]. split; [exact Hh |]. split; [exact Hw |].
  split; rewrite Hpx by lia; reflexivity.
Defined.

(** ** The square region and the box *)

(** X5: for an integer box, along an axis on which the box is no longer
    than on the other one (and at least one pixel), the square region before
    clipping covers the pixels of the box: it starts at or before [x1] and
    ends at or after [x2 + 1].  Along the longer axis the region has the
    same length [size], so it may cut the box. *)
Theorem region_covers_short_side (img_height img_width : N) (x1 y1 x2 y2 : Z)
    (x1s y1s x2s y2s : Z) :
  region (crop_geometry img_height img_width (int_box x1 y1 x2 y2))
    = (inject_Z x1s, inject_Z y1s, inject_Z x2s, inject_Z y2s) ->
  1 <= x2 - x1 + 1 -> 1 <= y2 - y1 + 1 ->
  (x2 - x1 <= y2 - y1 -> x1s <= x1 /\ x2 + 1 <= x2s)
  /\ (y2 - y1 <= x2 - x1 -> y1s <= y1 /\ y2 + 1 <= y2s)
  /\ x2s - x1s = y2s - y1s
  /\ x2s - x1s = Z.quot (Z.min (x2 - x1 + 1) (y2 - y1 + 1) * 6) 5.
Proof.
  intros Hr Hw Hh.
  pose proof (crop_geometry_int img_height img_width x1 y1 x2 y2) as Hg.
  cbv zeta in Hg. rewrite Hg in Hr. cbn [region] in Hr.
  injection Hr as E1 E2 E3 E4. subst x1s y1s x2s y2s.
  split; [| split; [| split]].
  - intros Hle. Z.to_euclidean_division_equations. lia.
  - intros Hle. Z.to_euclidean_division_equations. lia.
  - lia.
  - lia.
Qed.

Lemma region_covers_short_side_witness :
  (29 - 10 <= 49 - 20 -> 8 <= 10 /\ 29 + 1 <= 32)
  /\ (49 - 20 <= 29 - 10 -> 23 <= 20 /\ 49 + 1 <= 47)
  /\ 32 - 8 = 47 - 23
  /\ 32 - 8 = Z.quot (Z.min (29 - 10 + 1) (49 - 20 + 1) * 6) 5.
Proof.
  apply (region_covers_short_side 100 100 10 20 29 49 8 23 32 47);
    [reflexivity | lia | lia].
Defined.

(** ** Splitting a list of any length *)

(** X6: whatever the length of the flat list, [split_feeds] returns one
    group per image, no group is longer than the image has boxes, and the
    groups put end to end are the first [n] elements of the flat list, [n]
    being the total number of boxes: elements beyond are dropped without an
    error, and a list that is too short gives shorter (or empty) last
    groups. *)
Theorem split_feeds_prefix {A B : Type} (all_feeds : list A)
    (all_faces : list (list B)) :
  length (split_feeds all_feeds all_faces) = length all_faces
  /\ Forall2 (fun group faces => (length group <= length faces)%nat)
       (split_feeds all_feeds all_faces) all_faces
  /\ concat (split_feeds all_feeds all_faces)
     = take (sum_list_with length all_faces) all_feeds.
Proof.
  revert all_feeds.
  induction all_faces as [| faces all_faces IH]; intros all_feeds.
  - split; [reflexivity |]. split; [constructor | reflexivity].
  - rewrite split_feeds_cons.
    destruct (IH (drop (length faces) all_feeds)) as (IH1 & IH2 & IH3).
    cbn [length concat sum_list_with]. rewrite IH1, IH3.
    split; [reflexivity |]. split.
    + constructor; [| exact IH2]. rewrite length_take. lia.
    + apply take_take_drop.
Qed.

(** ** The three module-level predictors agree *)

Lemma forallb_map {A B : Type} (p : B -> bool) (g : A -> B) (l : list A) :
  forallb p (map g l) = forallb (fun x => p (g x)) l.
Proof. induction l as [| x l IH]; [reflexivity |]. simpl. rewrite IH. reflexivity. Qed.

Lemma torch_cat_collate (fs : list feed) :
  fs <> [] ->
  match torch_cat (map data fs) with
  | Ok ts => collate fs = Ok (ts, map feed_bbox fs)
  | Raise e => collate fs = Raise e
  end.
Proof.
  intros Hne. destruct fs as [| f fs]; [contradiction |].
  unfold torch_cat, collate. cbn [map].
  change (data f :: map data fs) with (map data (f :: fs)).
  rewrite forallb_map.
  destruct (forallb _ (f :: fs)); reflexivity.
Qed.

Lemma reproject_feeds_all (ls : list (list Q)) (fs : list feed)
    (results : list landmarks) :
  reproject_feeds (zip ls fs) results
  = reproject_all (zip ls (map feed_bbox fs)) results.
Proof.
  revert fs results. induction ls as [| l ls IH]; intros fs results.
  - reflexivity.
  - destruct fs as [| f fs]; [reflexivity |].
    cbn [zip zip_with map reproject_feeds reproject_all].
    unfold mbind, result_bind.
    destruct (reshape_pairs l); [| reflexivity]. apply IH.
Qed.

Lemma predict_one_batch (model : network) (fs : list feed) :
  predict_batches model [fs] []
  = match collate fs with
    | Ok fd => reproject_all (zip (model (fst fd)) (snd fd)) []
    | Raise e => Raise e
    end.
Proof.
  cbn [predict_batches]. unfold mbind, result_bind.
  destruct (collate fs) as [fd | e]; [| reflexivity].
  destruct (reproject_all _ _); reflexivity.
Qed.

(** X7: [batch_predict] and [batch_predict2] return the same landmark sets,
    or raise the same exception, on every feed or list of feeds, for any
    network and any [batch_size]; on an empty list both raise
    [ValueError]. *)
Theorem batch_predict_agrees (model : network) (feeds : feeds_arg)
    (dev : device) (batch_size : option Z) :
  batch_predict model feeds dev = batch_predict2 model feeds dev batch_size
  /\ batch_predict model (feed_list []) dev = Raise ValueError
  /\ batch_predict2 model (feed_list []) dev batch_size = Raise ValueError.
Proof.
  split; [| split; reflexivity].
  rewrite batch_predict2_one_batch. unfold batch_predict.
  fold (feeds_of feeds). destruct (feeds_of feeds) as [| f fs] eqn:E.
  - reflexivity.
  - rewrite predict_one_batch.
    pose proof (torch_cat_collate (f :: fs)) as H.
    unfold mbind at 1, result_bind at 1.
    destruct (torch_cat (map data (f :: fs))) as [ts | e].
    + rewrite H by discriminate. cbn [fst snd]. apply reproject_feeds_all.
    + rewrite H by discriminate. reflexivity.
Qed.

(** X8: if the network returns one row for a batch of one, [single_predict]
    on a feed computes the landmark set that [batch_predict2] returns, as a
    list of one, for that feed, and raises when it raises. *)
Theorem single_predict_agrees (model : network) (f : feed) (dev : device)
    (batch_size : option Z) :
  length (model [data f]) = 1%nat ->
  batch_predict2 model (one_feed f) dev batch_size
  = match single_predict model f dev with
    | Ok r => Ok [r]
    | Raise e => Raise e
    end.
Proof.
  intros Hrow.
  rewrite batch_predict2_one_batch. cbn [feeds_of].
  rewrite predict_one_batch. unfold single_predict.
  rewrite (collate_uniform (shape (data f))) by (repeat constructor).
  cbn [fst snd map].
  destruct (model [data f]) as [| row [| row' rows]]; try discriminate.
  cbn [zip zip_with concat reproject_all]. rewrite app_nil_r.
  unfold mbind, result_bind.
  destruct (reshape_pairs row); reflexivity.
Qed.

Lemma single_predict_agrees_witness :
  batch_predict2 (map corner_net)
    (one_feed {| data := {| shape := (3, 112, 112)%N; value := fun _ _ _ => 0%Q |};
                 feed_bbox := (88, 8, 100, 32) |}) cpu None
  = Ok [[(88, 8)%Q; (100, 32)%Q]].
Proof.
  rewrite (single_predict_agrees (map corner_net)
              {| data := {| shape := (3, 112, 112)%N; value := fun _ _ _ => 0%Q |};
                 feed_bbox := (88, 8, 100, 32) |} cpu None eq_refl).
  reflexivity.
Defined.

(** ** Several images in one call *)

Lemma mapM_app {A B : Type} (f : A -> result B) (l1 l2 : list A) :
  mapM f (l1 ++ l2)
  = match mapM f l1 with
    | Ok ys1 => match mapM f l2 with
                | Ok ys2 => Ok (ys1 ++ ys2)
                | Raise e => Raise e
                end
    | Raise e => Raise e
    end.
Proof.
  induction l1 as [| x l1 IH].
  - simpl. destruct (mapM f l2); reflexivity.
  - cbn [app mapM]. unfold mbind, result_bind, mret, result_ret in *.
    destruct (f x); [| reflexivity]. rewrite IH.
    destruct (mapM f l1); [| reflexivity].
    destruct (mapM f l2); reflexivity.
Qed.

Lemma mapM_concat {A B : Type} (f : A -> result B) (ls : list (list A))
    (yss : list (list B)) :
  Forall2 (fun l ys => mapM f l = Ok ys) ls yss ->
  mapM f (concat ls) = Ok (concat yss).
Proof.
  induction 1 as [| l ys ls yss Hl _ IH]; [reflexivity |].
  cbn [concat]. rewrite mapM_app, Hl, IH. reflexivity.
Qed.

Lemma split_feeds_concat {A B : Type} (rss : list (list A))
    (all_faces : list (list B)) :
  Forall2 (fun rs faces => length rs = length faces) rss all_faces ->
  split_feeds (concat rss) all_faces = rss.
Proof.
  induction 1 as [| rs faces rss all_faces Hlen _ IH]; [reflexivity |].
  rewrite split_feeds_cons. cbn [concat].
  rewrite take_app_length', drop_app_length' by congruence.
  rewrite IH. reflexivity.
Qed.

Lemma concat_length_eq {A B : Type} (xs : list (list A)) (ys : list (list B)) :
  Forall2 (fun a b => length a = length b) xs ys ->
  length (concat xs) = length (concat ys).
Proof.
  induction 1 as [| a b xs ys Hab _ IH]; [reflexivity |].
  cbn [concat]. rewrite !length_app. congruence.
Qed.

Section MultiImage.

Context (is_box : boxes_arg -> bool).
Context (interp : image -> N -> Z -> Z -> Z -> byte).
Context (self : LandmarkPredictor).
Context (net : tensor -> list Q).
Hypothesis model_pointwise : forall batch, self_model self batch = map net batch.

(** Per image: the feeds of its boxes and the landmark sets of its feeds. *)
Lemma per_image_results (all_boxes : list (list face_box)) (imgs : list image) :
  Forall2 (fun boxes img =>
             Forall (fun b => exists r,
                       call is_box interp self (image_box img b) = Ok (one_result r))
                    boxes) all_boxes imgs ->
  exists (fss : list (list feed)) (rss : list (list landmarks)),
    Forall2 (fun (bi : list face_box * image) fs =>
               mapM (fun box => self_prepare_feed interp self (snd bi) box) (fst bi)
               = Ok fs) (zip all_boxes imgs) fss
    /\ Forall2 (fun fs rs => mapM (infer net) fs = Ok rs) fss rss
    /\ Forall2 (fun (bi : list face_box * image) rs =>
                  Forall2 (fun b r => call is_box interp self (image_box (snd bi) b)
                                      = Ok (one_result r)) (fst bi) rs)
         (zip all_boxes imgs) rss.
Proof.
  induction 1 as [| boxes img all_boxes imgs Hb _ (fss & rss & IH1 & IH2 & IH3)].
  - exists [], []. repeat split; constructor.
  - assert (Hone : exists fs rs,
      mapM (fun box => self_prepare_feed interp self img box) boxes = Ok fs
      /\ mapM (infer net) fs = Ok rs
      /\ Forall2 (fun b r => call is_box interp self (image_box img b) = Ok (one_result r))
           boxes rs).
    { clear IH1 IH2 IH3. induction Hb as [| b bs (r & Hr) _ (fs & rs & I1 & I2 & I3)].
      - exists [], []. repeat split; constructor.
      - pose proof Hr as Hr'.
        apply (call_box_Ok is_box interp self net model_pointwise) in Hr'.
        destruct Hr' as (_ & f & Hf & Hi).
        exists (f :: fs), (r :: rs). cbn [mapM].
        unfold mbind, result_bind, mret, result_ret in *.
        rewrite Hf, I1, Hi, I2. repeat split. constructor; assumption. }
    destruct Hone as (fs & rs & H1 & H2 & H3).
    exists (fs :: fss), (rs :: rss). cbn [zip zip_with].
    repeat split; constructor; assumption.
Qed.

(** X9: with a network that treats every element of its batch on its own,
    a call on a list of images and one list of boxes per image, in which
    every box gives a result when it is passed alone with its image and at
    least one box exists, returns one group per image; group [k] has one
    landmark set per box of image [k], and its [j]-th set is the one the
    call on image [k] and its [j]-th box alone returns. *)
Theorem call_images_regrouped (all_boxes : list (list face_box))
    (imgs : list image) :
  Forall2 (fun boxes img =>
             Forall (fun b => exists r,
                       call is_box interp self (image_box img b) = Ok (one_result r))
                    boxes) all_boxes imgs ->
  concat all_boxes <> [] ->
  exists rss : list (list landmarks),
    call is_box interp self (images_boxes imgs all_boxes) = Ok (result_groups rss)
    /\ length rss = length imgs
    /\ map length rss = map length all_boxes
    /\ forall (k j : nat) (img : image) (boxes : list face_box) (box : face_box),
         imgs !! k = Some img -> all_boxes !! k = Some boxes ->
         boxes !! j = Some box ->
         exists rs r, rss !! k = Some rs /\ rs !! j = Some r
                      /\ call is_box interp self (image_box img box) = Ok (one_result r).
Proof.
  intros Hall Hsome.
  pose proof (Forall2_length _ _ _ Hall) as Hlen.
  destruct (per_image_results _ _ Hall) as (fss & rss & H1 & H2 & H3).
  assert (Hlens : Forall2 (fun rs boxes => length rs = length boxes) rss all_boxes).
  { clear - H3 Hlen. revert imgs rss Hlen H3.
    induction all_boxes as [| boxes all_boxes IH]; intros imgs rss Hlen H3.
    - inversion H3; subst. constructor.
    - destruct imgs as [| img imgs]; [discriminate |].
      cbn [zip zip_with] in H3.
      inversion H3 as [| ? rs ? rss' Hrs Hrest]; subst.
      constructor.
      + symmetry. exact (Forall2_length _ _ _ Hrs).
      + apply (IH imgs); [simpl in Hlen; lia | exact Hrest]. }
  assert (Hflens : Forall2 (fun fs rs => length fs = length rs) fss rss).
  { clear - H2. induction H2 as [| fs rs fss rss Hm _ IH]; constructor; [| exact IH].
    apply mapM_Ok in Hm. exact (Forall2_length _ _ _ Hm). }
  assert (Hfeeds : concat fss <> []).
  { intros E. apply Hsome. apply length_zero_iff_nil.
    rewrite <- (concat_length_eq _ _ Hlens), <- (concat_length_eq _ _ Hflens), E.
    reflexivity. }
  assert (Hshape : Forall (fun f => shape (data f)
            = (3%N, out_size_of (self_backbone self),
               out_size_of (self_backbone self))) (concat fss)).
  { clear - H1. induction H1 as [| bi fs bis fss Hm _ IH]; [constructor |].
    cbn [concat]. apply Forall_app. split; [| exact IH].
    apply mapM_Ok in Hm. clear - Hm.
    induction Hm as [| b f bs fs Hbf _ IH]; constructor; [| exact IH].
    exact (prepare_feed_shape _ _ _ _ _ Hbf). }
  exists rss. split.
  - cbn [call]. rewrite Hlen, Nat.eqb_refl. cbn [negb].
    destruct imgs as [| img0 imgs0] eqn:Eimgs.
    { destruct all_boxes; [contradiction | discriminate]. }
    rewrite <- Eimgs in *. unfold self_batch_predict.
    apply mapM_Ok in H1. rewrite H1. unfold mbind at 1, result_bind at 1.
    rewrite (inner_predict_list self net model_pointwise _ _ Hfeeds Hshape).
    rewrite (mapM_concat _ _ _ H2). unfold mbind, result_bind.
    rewrite (split_feeds_concat _ _ Hlens). reflexivity.
  - split; [rewrite (Forall2_length _ _ _ Hlens); exact Hlen |].
    split.
    { clear - Hlens. induction Hlens as [| ? ? ? ? E _ IH]; [reflexivity |].
      cbn [map]. rewrite E, IH. reflexivity. }
    intros k j img boxes box Hk Hb Hj.
    assert (Hz : zip all_boxes imgs !! k = Some (boxes, img)).
    { rewrite lookup_zip_with, Hb, Hk. reflexivity. }
    destruct (Forall2_lookup_l _ _ _ _ _ H3 Hz) as (rs & Hrs & Hpair).
    cbn [fst snd] in Hpair.
    destruct (Forall2_lookup_l _ _ _ _ _ Hpair Hj) as (r & Hr & Hcall).
    exists rs, r. repeat split; assumption.
Qed.

End MultiImage.

Lemma call_images_regrouped_witness :
  exists rss : list (list landmarks),
    call sample_is_box nearest corner_predictor
      (images_boxes [flat_image 100 100 x80; flat_image 50 60 x00]
         [[int_box 10 10 29 29; int_box 90 10 109 29]; []])
    = Ok (result_groups rss)
    /\ length rss = 2%nat
    /\ map length rss = [2; 0]%nat.
Proof.
  destruct (call_images_regrouped sample_is_box nearest corner_predictor corner_net
              (fun batch => eq_refl)
              [[int_box 10 10 29 29; int_box 90 10 109 29]; []]
              [flat_image 100 100 x80; flat_image 50 60 x00])
    as (rss & Hcall & Hlen & Hlens & _).
  - repeat constructor; eexists; reflexivity.
  - discriminate.
  - exists rss. split; [exact Hcall |]. split; [exact Hlen | exact Hlens].
Defined.

(** ** Calls without a box *)

Lemma no_boxes_no_feeds {F : Type} (g : image -> face_box -> result F)
    (all_boxes : list (list face_box)) (imgs : list image) :
  Forall (fun boxes => boxes = []) all_boxes ->
  exists fss,
    mapM (fun fi : list face_box * image => mapM (fun box => g (snd fi) box) (fst fi))
         (zip all_boxes imgs) = Ok fss
    /\ concat fss = [].
Proof.
  intros Hall. revert imgs.
  induction Hall as [| boxes all_boxes -> _ IH]; intros imgs.
  - exists []. split; reflexivity.
  - destruct imgs as [| img imgs]; [exists []; split; reflexivity |].
    destruct (IH imgs) as (fss & Hm & Hc).
    exists ([] :: fss). cbn [zip zip_with mapM fst snd].
    unfold mbind, result_bind, mret, result_ret in *. rewrite Hm.
    split; [reflexivity | exact Hc].
Qed.

(** X10: the predictor raises [ValueError] when it is given no box at all:
    on one image with an empty list of boxes (which [is_box] does not take
    for a box; if it did, [prepare_feed] would raise [IndexError] on the
    empty list), and on a list of images (not empty, with as many box lists
    as images) whose box lists are all empty.  The loader is then built
    with batch size 0, before the network is called. *)
Theorem call_without_boxes (is_box : boxes_arg -> bool)
    (interp : image -> N -> Z -> Z -> Z -> byte)
    (self : LandmarkPredictor) (img : image) (imgs : list image)
    (all_boxes : list (list face_box)) :
  imgs <> [] ->
  length all_boxes = length imgs ->
  Forall (fun boxes => boxes = []) all_boxes ->
  call is_box interp self (image_boxes img [])
    = (if is_box (some_boxes []) then Raise IndexError else Raise ValueError)
  /\ call is_box interp self (images_boxes imgs all_boxes) = Raise ValueError.
Proof.
  intros Hne Hlen Hall. split.
  { cbn [call]. destruct (is_box _); reflexivity. }
  cbn [call]. rewrite Hlen, Nat.eqb_refl. cbn [negb].
  destruct imgs as [| img0 imgs0] eqn:E; [contradiction |]. rewrite <- E.
  unfold self_batch_predict.
  destruct (no_boxes_no_feeds (self_prepare_feed interp self) all_boxes imgs Hall)
    as (fss & Hm & Hc).
  rewrite Hm. unfold mbind at 1, result_bind at 1. rewrite Hc. reflexivity.
Qed.

Lemma call_without_boxes_witness :
  call sample_is_box nearest corner_predictor
    (image_boxes (flat_image 100 100 x80) [])
  = Raise ValueError
  /\ call sample_is_box nearest corner_predictor
       (images_boxes [flat_image 100 100 x80; flat_image 50 60 x00] [[]; []])
     = Raise ValueError.
Proof.
  apply (call_without_boxes sample_is_box nearest corner_predictor
           (flat_image 100 100 x80)
           [flat_image 100 100 x80; flat_image 50 60 x00] [[]; []]).
  - discriminate.
  - reflexivity.
  - repeat constructor.
Defined.

(** ** Landmarks stay in the image *)

(** X11: on an image of fewer than 2^24 rows and columns, for an integer box
    inside the image that [is_box] takes for a box and a network that treats
    every element of its batch on its own and returns normalised pairs in
    the unit square, the call on the image and the box returns a landmark
    set all of whose points lie in the image: [0 <= x <= W] and
    [0 <= y <= H]. *)
Theorem landmarks_in_image (is_box : boxes_arg -> bool)
    (interp : image -> N -> Z -> Z -> Z -> byte)
    (self : LandmarkPredictor) (net : tensor -> list Q)
    (img : image) (x1 y1 x2 y2 : Z) :
  (forall batch, self_model self batch = map net batch) ->
  (forall t, exists ps,
      reshape_pairs (net t) = Ok ps
      /\ Forall (fun p => (0 <= fst p /\ fst p <= 1)
                          /\ (0 <= snd p /\ snd p <= 1))%Q ps) ->
  is_box (a_box (int_box x1 y1 x2 y2)) = true ->
  0 <= x1 -> x1 <= x2 -> x2 <= Z.of_N (width img) - 1 ->
  0 <= y1 -> y1 <= y2 -> y2 <= Z.of_N (height img) - 1 ->
  Z.of_N (width img) < 2 ^ 24 -> Z.of_N (height img) < 2 ^ 24 ->
  exists r,
    call is_box interp self (image_box img (int_box x1 y1 x2 y2))
    = Ok (one_result r)
    /\ Forall (fun p => (0 <= fst p /\ fst p <= inject_Z (Z.of_N (width img)))
                        /\ (0 <= snd p /\ snd p <= inject_Z (Z.of_N (height img))))%Q
         r.
Proof.
  intros Hmodel Hnet Hbox Hx1 Hx12 Hx2 Hy1 Hy12 Hy2 HW HH.
  destruct (inside_meets _ _ _ _ _ _ Hx1 Hx12 Hx2 Hy1 Hy12 Hy2)
    as (Hs & Hmx & Hmy).
  set (s := Z.quot (Z.min (x2 - x1 + 1) (y2 - y1 + 1) * 6) 5) in *.
  set (x1s := x1 + (x2 - x1 + 1) / 2 - s / 2) in *.
  set (y1s := y1 + (y2 - y1 + 1) / 2 - s / 2) in *.
  assert (Hr : region (crop_geometry (height img) (width img) (int_box x1 y1 x2 y2))
               = (inject_Z x1s, inject_Z y1s, inject_Z (x1s + s), inject_Z (y1s + s))).
  { rewrite crop_geometry_int. reflexivity. }
  destruct (padded_crop_content img x1 y1 x2 y2 _ _ _ _ Hr HW HH Hmx Hmy)
    as (Hb & c & Hc & Hh & Hw & _).
  pose proof (prepare_feed_cases interp img (int_box x1 y1 x2 y2)
                (self_backbone self) c Hc) as Hf.
  destruct (N.eqb_spec (height c) 0) as [E | _]; [lia |].
  destruct (N.eqb_spec (width c) 0) as [E | _]; [lia |].
  cbn [orb] in Hf. rewrite Hb in Hf.
  set (f := {| data := _; feed_bbox := _ |}) in Hf.
  destruct (Hnet (data f)) as (ps & Hps & Hunit).
  exists (reproject (feed_bbox f) ps). split.
  - apply (call_box_Ok is_box interp self net Hmodel). split; [exact Hbox |].
    exists f. split; [exact Hf |]. unfold infer. rewrite Hps. reflexivity.
  - unfold f. cbn [feed_bbox]. rewrite reproject_map.
    rewrite !wrap32_small by lia. apply List.Forall_map.
    eapply Forall_impl; [exact Hunit |].
    intros [lx ly] [[Hlx0 Hlx1] [Hly0 Hly1]]. cbn [fst snd] in *.
    destruct (affine_between _ _ lx (Z.lt_le_incl _ _ Hmx) Hlx0 Hlx1) as [A1 A2].
    destruct (affine_between _ _ ly (Z.lt_le_incl _ _ Hmy) Hly0 Hly1) as [B1 B2].
    assert (C1 : (0 <= inject_Z (Z.max 0 x1s))%Q)
      by (change 0%Q with (inject_Z 0); rewrite <- Zle_Qle; lia).
    assert (C2 : (inject_Z (Z.min (Z.of_N (width img)) (x1s + s))
                  <= inject_Z (Z.of_N (width img)))%Q)
      by (rewrite <- Zle_Qle; lia).
    assert (C3 : (0 <= inject_Z (Z.max 0 y1s))%Q)
      by (change 0%Q with (inject_Z 0); rewrite <- Zle_Qle; lia).
    assert (C4 : (inject_Z (Z.min (Z.of_N (height img)) (y1s + s))
                  <= inject_Z (Z.of_N (height img)))%Q)
      by (rewrite <- Zle_Qle; lia).
    split; split; lra.
Qed.

Lemma landmarks_in_image_witness :
  exists r,
    call sample_is_box nearest corner_predictor
      (image_box (flat_image 100 100 x80) (int_box 90 10 99 29)) = Ok (one_result r)
    /\ Forall (fun p => (0 <= fst p /\ fst p <= inject_Z (Z.of_N 100))
                        /\ (0 <= snd p /\ snd p <= inject_Z (Z.of_N 100)))%Q r.
Proof.
  apply (landmarks_in_image sample_is_box nearest corner_predictor corner_net
           (flat_image 100 100 x80) 90 10 99 29); try (cbn; lia).
  - intros batch. reflexivity.
  - intros t. eexists. split; [reflexivity |].
    repeat constructor; vm_compute; discriminate.
  - reflexivity.
Defined.

(** ** The corners of the crop *)


